(** * nf-nim: the RFdiffusion example client

    A shallow embedding of [examples/nim_rfdiffusion_client.py]: the function
    [get_reduced_pdb] and the module-level script that posts the reduced
    structure to the local service and saves the answer to [output.pdb].

    Python's [str] is a sequence of Unicode code points; a code point is an
    [N] here and a string a list of them.  The file system, the network and the
    console are an explicit world that the script threads through its calls;
    an uncaught exception is the left summand of a computation's result. *)

From Stdlib Require Import String Ascii.
From Stdlib Require Import List NArith ZArith Bool Lia DecimalString.
Import ListNotations.

Set Implicit Arguments.

(** ** Python strings *)

Abbreviation char := N (only parsing).
Abbreviation str := (list N) (only parsing).

(** A literal of the source, read as code points. *)
Definition lit (s : string) : str := map N_of_ascii (list_ascii_of_string s).

(** One character of the source, as its code point. *)
Definition ch (a : ascii) : char := N_of_ascii a.
Arguments ch a%_char.

Definition LF : char := 10%N.
Definition CR : char := 13%N.
Definition DQUOTE : char := 34%N.

(** The surrogate code points, U+D800 to U+DFFF. *)
Definition is_surrogate (c : char) : bool := N.leb 55296 c && N.leb c 57343.

(** A string that a text file can take.  Python writes text encoded, here in
    UTF-8, and UTF-8 encodes every code point of a [str] but a surrogate. *)
Definition encodable (s : str) : bool :=
  forallb (fun c => negb (is_surrogate c)) s.

Fixpoint str_eqb (a b : str) : bool :=
  match a, b with
  | [], [] => true
  | x :: a', y :: b' => N.eqb x y && str_eqb a' b'
  | _, _ => false
  end.

(** [s.startswith(p)] *)
Fixpoint startswith (s p : str) : bool :=
  match p with
  | [] => true
  | a :: p' =>
      match s with
      | [] => false
      | c :: s' => N.eqb c a && startswith s' p'
      end
  end.

(** [s.split(sep)] for a separator of one character, the only use the script
    makes of it: the result is never empty, and the empty string splits into
    one empty string. *)
Fixpoint split (sep : char) (s : str) : list str :=
  match s with
  | [] => [[]]
  | c :: r =>
      if N.eqb c sep then [] :: split sep r
      else match split sep r with
           | l :: ls => (c :: l) :: ls
           | [] => [[c]]
           end
  end.

(** [sep.join(ls)] *)
Fixpoint join (sep : str) (ls : list str) : str :=
  match ls with
  | [] => []
  | x :: xs =>
      match xs with
      | [] => x
      | _ :: _ => x ++ sep ++ join sep xs
      end
  end.

(** ** [get_reduced_pdb], lines 11 and 12: filter and join *)

(** [lambda line: line.startswith("ATOM")] *)
Definition is_atom (line : str) : bool := startswith line (lit "ATOM").

(** [filter(is_atom, content.split("\n"))], forced by [list(...)]. *)
Definition atom_lines (content : str) : list str :=
  filter is_atom (split LF content).

(** ["\n".join(list(lines)[:400])] over the text that [read_text] returned. *)
Definition extract_truncated_records (content : str) : str :=
  join [LF] (firstn 400 (atom_lines content)).

(** ** Lines of a text, as the specification counts them

    The source never counts lines; the specification does.  A text is read as
    a sequence of lines ended by a line feed, the last of which may lack it:
    the empty text has no line, and a text that is one line feed has one empty
    line.  That is [split] without the empty piece after a final line feed. *)
Definition text_lines (s : str) : list str :=
  let ls := split LF s in
  match last ls [] with
  | [] => removelast ls
  | _ :: _ => ls
  end.

Definition line_count (s : str) : nat := length (text_lines s).

(** [sub] is a subsequence of [l]: some elements of [l], in the order of [l]. *)
Inductive subseq {A : Type} : list A -> list A -> Prop :=
| subseq_nil : subseq [] []
| subseq_skip : forall x sub l, subseq sub l -> subseq sub (x :: l)
| subseq_keep : forall x sub l, subseq sub l -> subseq (x :: sub) (x :: l).

(** ** JSON values and [json.loads]

    The decoder follows the standard library's [json.decoder] and
    [json.scanner]: [scanstring], [JSONObject], [JSONArray] and [scan_once]
    keep their names.  A position in the text is the suffix that starts there.
    [None] stands for the exception the decoder raises.  Floating point
    literals are kept as their text: the script never reads one. *)

#[warnings="-register-all"]
Inductive json : Type :=
| JNull
| JBool (b : bool)
| JInt (z : Z)
| JFloat (lexeme : str)
| JStr (s : str)
| JArr (items : list json)
| JObj (pairs : list (str * json)).

(** [d[k]] on the dictionary built from [pairs] in order: a later pair
    replaces an earlier one of the same key. *)
Fixpoint dict_get (pairs : list (str * json)) (k : str) : option json :=
  match pairs with
  | [] => None
  | (k', v) :: rest =>
      match dict_get rest k with
      | Some v' => Some v'
      | None => if str_eqb k' k then Some v else None
      end
  end.

Definition is_ws (c : char) : bool :=
  N.eqb c (ch " ") || N.eqb c 9%N || N.eqb c LF || N.eqb c CR.

Fixpoint skip_ws (s : str) : str :=
  match s with
  | c :: r => if is_ws c then skip_ws r else s
  | [] => []
  end.

Definition is_digit (c : char) : bool := N.leb (ch "0") c && N.leb c (ch "9").

Definition hex_digit (c : char) : option N :=
  if is_digit c then Some (c - ch "0")%N
  else if N.leb (ch "A") c && N.leb c (ch "F") then Some (c - ch "A" + 10)%N
  else if N.leb (ch "a") c && N.leb c (ch "f") then Some (c - ch "a" + 10)%N
  else None.

(** The four hexadecimal digits of a [\uXXXX] escape. *)
Definition hex4 (a b c d : char) : option N :=
  match hex_digit a, hex_digit b, hex_digit c, hex_digit d with
  | Some x, Some y, Some z, Some t => Some (((x * 16 + y) * 16 + z) * 16 + t)%N
  | _, _, _, _ => None
  end.

(** The decoder's table [BACKSLASH] of one-letter escapes. *)
Definition backslash_escape (e : char) : option char :=
  if N.eqb e DQUOTE then Some DQUOTE
  else if N.eqb e (ch "\") then Some (ch "\")
  else if N.eqb e (ch "/") then Some (ch "/")
  else if N.eqb e (ch "b") then Some 8%N
  else if N.eqb e (ch "f") then Some 12%N
  else if N.eqb e (ch "n") then Some LF
  else if N.eqb e (ch "r") then Some CR
  else if N.eqb e (ch "t") then Some 9%N
  else None.

Definition is_high_surrogate (u : N) : bool := N.leb 55296 u && N.leb u 56319.
Definition is_low_surrogate (u : N) : bool := N.leb 56320 u && N.leb u 57343.
Definition join_surrogates (hi lo : N) : N :=
  (65536 + ((hi - 55296) * 1024 + (lo - 56320)))%N.

(** [scanstring(s, end, strict=True)] from just after the opening quote:
    the decoded string and the text after the closing quote.  [acc] holds the
    decoded characters, last first. *)
Fixpoint scanstring (s : str) (acc : str) : option (str * str) :=
  match s with
  | [] => None
  | c :: r =>
      if N.eqb c DQUOTE then Some (rev acc, r)
      else if N.eqb c (ch "\") then
        match r with
        | [] => None
        | e :: r1 =>
            if N.eqb e (ch "u") then
              match r1 with
              | a :: b :: c' :: d :: r2 =>
                  match hex4 a b c' d with
                  | None => None
                  | Some uni =>
                      match r2 with
                      | bs :: u :: a2 :: b2 :: c2 :: d2 :: r3 =>
                          if is_high_surrogate uni && N.eqb bs (ch "\")
                             && N.eqb u (ch "u")
                          then
                            match hex4 a2 b2 c2 d2 with
                            | None => None
                            | Some uni2 =>
                                if is_low_surrogate uni2
                                then scanstring r3 (join_surrogates uni uni2 :: acc)
                                else scanstring r2 (uni :: acc)
                            end
                          else scanstring r2 (uni :: acc)
                      | _ => scanstring r2 (uni :: acc)
                      end
                  end
              | _ => None
              end
            else
              match backslash_escape e with
              | Some x => scanstring r1 (x :: acc)
              | None => None
              end
        end
      else if N.ltb c 32 then None
      else scanstring r (c :: acc)
  end.

Fixpoint span_digits (s : str) : str * str :=
  match s with
  | c :: r =>
      if is_digit c then let (d, r') := span_digits r in (c :: d, r')
      else ([], s)
  | [] => ([], [])
  end.

Definition digits_value (d : str) : Z :=
  fold_left (fun acc c => (10 * acc + Z.of_N (c - ch "0"))%Z) d 0%Z.

(** The integer part of [NUMBER_RE]: an optional minus sign, then a zero or
    a digit from 1 to 9 followed by any digits. *)
Definition match_integer (s : str) : option (bool * str * str) :=
  let (neg, s1) :=
    match s with
    | c :: r => if N.eqb c (ch "-") then (true, r) else (false, s)
    | [] => (false, s)
    end in
  match s1 with
  | [] => None
  | c :: r =>
      if N.eqb c (ch "0") then Some (neg, [c], r)
      else if is_digit c then let (d, r') := span_digits r in Some (neg, c :: d, r')
      else None
  end.

(** The optional fraction of [NUMBER_RE]: a point and at least one digit. *)
Definition match_frac (s : str) : str * str :=
  match s with
  | p :: r =>
      if N.eqb p (ch ".") then
        match span_digits r with
        | ([], _) => ([], s)
        | (d, r') => (p :: d, r')
        end
      else ([], s)
  | [] => ([], s)
  end.

(** The optional exponent of [NUMBER_RE]: e or E, an optional sign and at
    least one digit. *)
Definition match_exp (s : str) : str * str :=
  match s with
  | e :: r =>
      if N.eqb e (ch "e") || N.eqb e (ch "E") then
        let (sign, r1) :=
          match r with
          | g :: t => if N.eqb g (ch "+") || N.eqb g (ch "-") then ([g], t) else ([], r)
          | [] => ([], r)
          end in
        match span_digits r1 with
        | ([], _) => ([], s)
        | (d, r') => (e :: sign ++ d, r')
        end
      else ([], s)
  | [] => ([], s)
  end.

(** [match_number] with the scanner's choice between [int] and [float]. *)
Definition match_number (s : str) : option (json * str) :=
  match match_integer s with
  | None => None
  | Some (neg, ds, r1) =>
      let (frac, r2) := match_frac r1 in
      let (exp, r3) := match_exp r2 in
      match frac, exp with
      | [], [] => Some (JInt (if neg then - digits_value ds else digits_value ds), r3)
      | _, _ => Some (JFloat ((if neg then [ch "-"] else []) ++ ds ++ frac ++ exp), r3)
      end
  end.

Section Decoder.

(** [JSONObject] and [JSONArray] receive the scanner as an argument, as in
    the library. *)
Variable scan : str -> option (json * str).

(** The [while True] loop of [JSONObject], entered just after the opening
    quote of a key.  [bound] limits the iterations; each one consumes
    characters, so the length of the text is enough. *)
Fixpoint object_members (bound : nat) (s : str) (acc : list (str * json))
  : option (json * str) :=
  match bound with
  | 0 => None
  | S bound' =>
      match scanstring s [] with
      | None => None
      | Some (key, r) =>
          match skip_ws r with
          | c :: r1 =>
              if N.eqb c (ch ":") then
                match scan (skip_ws r1) with
                | None => None
                | Some (value, r2) =>
                    let acc' := (key, value) :: acc in
                    match skip_ws r2 with
                    | d :: r3 =>
                        if N.eqb d (ch "}") then Some (JObj (rev acc'), r3)
                        else if N.eqb d (ch ",") then
                          match skip_ws r3 with
                          | q :: r4 =>
                              if N.eqb q DQUOTE
                              then object_members bound' r4 acc'
                              else None
                          | [] => None
                          end
                        else None
                    | [] => None
                    end
                end
              else None
          | [] => None
          end
      end
  end.

(** [JSONObject], from just after the opening brace. *)
Definition JSONObject (s : str) : option (json * str) :=
  match skip_ws s with
  | c :: r =>
      if N.eqb c DQUOTE then object_members (length r) r []
      else if N.eqb c (ch "}") then Some (JObj [], r)
      else None
  | [] => None
  end.

(** The loop of [JSONArray], entered at the start of a value. *)
Fixpoint array_items (bound : nat) (s : str) (acc : list json)
  : option (json * str) :=
  match bound with
  | 0 => None
  | S bound' =>
      match scan s with
      | None => None
      | Some (value, r) =>
          let acc' := value :: acc in
          match skip_ws r with
          | d :: r1 =>
              if N.eqb d (ch "]") then Some (JArr (rev acc'), r1)
              else if N.eqb d (ch ",") then array_items bound' (skip_ws r1) acc'
              else None
          | [] => None
          end
      end
  end.

(** [JSONArray], from just after the opening bracket. *)
Definition JSONArray (s : str) : option (json * str) :=
  match skip_ws s with
  | c :: r =>
      if N.eqb c (ch "]") then Some (JArr [], r)
      else array_items (length s) (skip_ws s) []
  | [] => None
  end.

End Decoder.

(** [_scan_once]: [fuel] bounds the nesting depth. *)
Fixpoint scan_once (fuel : nat) (s : str) : option (json * str) :=
  match fuel with
  | 0 => None
  | S fuel' =>
      match s with
      | [] => None
      | c :: r =>
          if N.eqb c DQUOTE then
            match scanstring r [] with
            | Some (t, r') => Some (JStr t, r')
            | None => None
            end
          else if N.eqb c (ch "{") then JSONObject (scan_once fuel') r
          else if N.eqb c (ch "[") then JSONArray (scan_once fuel') r
          else if startswith s (lit "null") then Some (JNull, skipn 4 s)
          else if startswith s (lit "true") then Some (JBool true, skipn 4 s)
          else if startswith s (lit "false") then Some (JBool false, skipn 5 s)
          else
            match match_number s with
            | Some res => Some res
            | None =>
                if startswith s (lit "NaN") then Some (JFloat (lit "NaN"), skipn 3 s)
                else if startswith s (lit "Infinity")
                then Some (JFloat (lit "Infinity"), skipn 8 s)
                else if startswith s (lit "-Infinity")
                then Some (JFloat (lit "-Infinity"), skipn 9 s)
                else None
            end
      end
  end.

(** [json.loads(s)]: no byte order mark, one value between optional white
    space, nothing after it.  A value nests less deep than the text is long. *)
Definition json_loads (s : str) : option json :=
  if startswith s [65279%N] then None
  else
    match scan_once (S (length s)) (skip_ws s) with
    | Some (v, r) =>
        match skip_ws r with
        | [] => Some v
        | _ :: _ => None
        end
    | None => None
    end.

(** A scanner consumes: what it leaves is shorter than what it was given. *)
Definition consumes (scan : str -> option (json * str)) : Prop :=
  forall s v r, scan s = Some (v, r) -> length r < length s.

(** ** The world of the script: files, network, console

    A file holds its text.  [requests] either returns a response or raises;
    which of the two, and what the response is, is the network's choice, so
    the network is a parameter of every run.  What a run does to the outside
    is recorded, in order, as a list of events. *)

(** A [requests.Response], as far as the script reads it: its status and its
    body, given as the characters the body stands for. *)
Record Response : Type := { status_code : N; content : str }.

(** [r.text] is a property: the body decoded with [errors="replace"].
    Decoding puts U+FFFD for what it cannot decode, so the text holds no lone
    surrogate; a surrogate in the body is replaced in the same way here. *)
Definition text (r : Response) : str :=
  map (fun c => if is_surrogate c then 65533%N else c) (content r).

(** [repr(r)], which [print] shows for a response. *)
Definition Response_repr (r : Response) : str :=
  lit "<Response [" ++ lit (NilZero.string_of_uint (N.to_uint (status_code r)))
    ++ lit "]>".

(** The answer to a request, or [None] when [requests] raises (no
    connection, for one). *)
Record Network : Type := {
  http_get : str -> option Response;
  http_post : str -> json -> option Response
}.

Definition files := str -> option str.

Definition write_file (fs : files) (path data : str) : files :=
  fun p => if str_eqb p path then Some data else fs p.

Inductive event : Type :=
| Get (url : str)
| Post (url : str) (body : json)
| WriteText (path data : str)
| Print (out : str).

Inductive exn : Type :=
| RequestException
| FileNotFoundError
| JSONDecodeError
| KeyError
| TypeError
| UnicodeEncodeError.

(** A run from a file system: how it ended (an uncaught exception or a
    value), the files it left, and its events. *)
Record run (A : Type) : Type := {
  outcome : exn + A;
  files_after : files;
  events : list event
}.

Definition M (A : Type) : Type := files -> run A.

Definition ret {A : Type} (a : A) : M A :=
  fun fs => {| outcome := inr a; files_after := fs; events := [] |}.

Definition raise {A : Type} (e : exn) : M A :=
  fun fs => {| outcome := inl e; files_after := fs; events := [] |}.

(** Sequencing: an exception of the first part ends the run there. *)
Definition bind {A B : Type} (m : M A) (k : A -> M B) : M B :=
  fun fs =>
    let r1 := m fs in
    match outcome r1 with
    | inl e =>
        {| outcome := inl e; files_after := files_after r1; events := events r1 |}
    | inr a =>
        let r2 := k a (files_after r1) in
        {| outcome := outcome r2;
           files_after := files_after r2;
           events := events r1 ++ events r2 |}
    end.

Notation "x <- m ;; k" := (bind m (fun x => k))
  (at level 61, m at next level, right associativity).
Notation "m ;;; k" := (bind m (fun _ => k))
  (at level 61, right associativity).

Definition emit (e : event) : M unit :=
  fun fs => {| outcome := inr tt; files_after := fs; events := [e] |}.

(** [Path(p).exists()] *)
Definition path_exists (p : str) : M bool :=
  fun fs =>
    {| outcome := inr (match fs p with Some _ => true | None => false end);
       files_after := fs; events := [] |}.

(** [Path(p).write_text(data)]: the file is opened for writing, which
    creates it or empties it, and the data is written encoded.  A string that
    is not [encodable] raises there, and the file is left empty.  The event
    records what the file holds afterwards. *)
Definition write_text (p data : str) : M unit :=
  fun fs =>
    if encodable data then
      {| outcome := inr tt;
         files_after := write_file fs p data;
         events := [WriteText p data] |}
    else
      {| outcome := inl UnicodeEncodeError;
         files_after := write_file fs p [];
         events := [WriteText p []] |}.

(** Text mode reads with universal newlines: a carriage return, alone or
    before a line feed, is read as one line feed. *)
Fixpoint universal_newlines (s : str) : str :=
  match s with
  | [] => []
  | c :: r =>
      if N.eqb c CR then
        LF :: match r with
              | [] => []
              | d :: r' =>
                  if N.eqb d LF then universal_newlines r' else universal_newlines r
              end
      else c :: universal_newlines r
  end.

(** [Path(p).read_text()] *)
Definition read_text (p : str) : M str :=
  fun fs =>
    match fs p with
    | Some data => ret (universal_newlines data) fs
    | None => raise FileNotFoundError fs
    end.

(** [print(a, b, ...)]: the arguments separated by a space, then a line
    feed. *)
Definition print (args : list str) : M unit :=
  emit (Print (join (lit " ") args ++ [LF])).

(** [v[k]] for a string [k]: only a dictionary can be indexed by it. *)
Definition getitem (v : json) (k : str) : M json :=
  match v with
  | JObj pairs =>
      match dict_get pairs k with
      | Some x => ret x
      | None => raise KeyError
      end
  | _ => raise TypeError
  end.

(** [Path(p).write_text(data)] for a decoded value: [write_text] refuses
    what is not a [str] before it opens the file. *)
Definition write_text_value (p : str) (data : json) : M unit :=
  match data with
  | JStr s => write_text p s
  | _ => raise TypeError
  end.

(** [json.loads(s)] as a step of the script. *)
Definition loads (s : str) : M json :=
  match json_loads s with
  | Some v => ret v
  | None => raise JSONDecodeError
  end.

(** ** The script *)

Definition pdb : str := lit "1R42.pdb".
Definition output_pdb : str := lit "output.pdb".
Definition download_url : str := lit "https://files.rcsb.org/download/" ++ pdb.
Definition generate_url : str :=
  lit "http://localhost:8000/biology/ipd/rfdiffusion/generate".

(** The [json=] argument of the request, lines 16 to 21. *)
Definition payload (input_pdb : str) : json :=
  JObj [ (lit "input_pdb", JStr input_pdb);
         (lit "contigs", JStr (lit "A20-60/0 50-100"));
         (lit "hotspot_res",
           JArr [JStr (lit "A50"); JStr (lit "A51"); JStr (lit "A52");
                 JStr (lit "A53"); JStr (lit "A54")]);
         (lit "diffusion_steps", JInt 15) ].

(** What line 23 prints for the response [r]. *)
Definition preview (r : Response) : list str :=
  [ Response_repr r; lit "Saving to output.pdb:" ++ [LF];
    firstn 200 (text r); lit "..." ].

(** The text that [print] writes for [preview r]. *)
Definition preview_text (r : Response) : str :=
  (Response_repr r ++ lit " " ++ (lit "Saving to output.pdb:" ++ [LF]) ++ lit " "
     ++ firstn 200 (text r) ++ lit " " ++ lit "...") ++ [LF].

Section Script.

Variable net : Network.

(** [requests.get(url)] *)
Definition requests_get (url : str) : M Response :=
  emit (Get url) ;;;
  match http_get net url with
  | Some r => ret r
  | None => raise RequestException
  end.

(** [requests.post(url=url, json=body)] *)
Definition requests_post (url : str) (body : json) : M Response :=
  emit (Post url body) ;;;
  match http_post net url body with
  | Some r => ret r
  | None => raise RequestException
  end.

(** Lines 8 to 10 of [get_reduced_pdb]: download the structure file unless
    it is there. *)
Definition ensure_local_structure_file : M unit :=
  present <- path_exists pdb ;;
  if negb present then
    r <- requests_get download_url ;;
    write_text pdb (text r)
  else ret tt.

Definition get_reduced_pdb : M str :=
  ensure_local_structure_file ;;;
  content <- read_text pdb ;;
  ret (extract_truncated_records content).

(** Lines 14 to 22: the request, once its argument is evaluated. *)
Definition submit_generation_request (input_pdb : str) : M Response :=
  requests_post generate_url (payload input_pdb).

(** Lines 23 and 24: the preview, then the output file. *)
Definition persist_output (r : Response) : M unit :=
  print (preview r) ;;;
  v <- loads (text r) ;;
  d <- getitem v (lit "output_pdb") ;;
  write_text_value output_pdb d.

(** The module's statements, in order. *)
Definition main : M unit :=
  input_pdb <- get_reduced_pdb ;;
  r <- submit_generation_request input_pdb ;;
  persist_output r.

End Script.

(** ** Response bodies and worlds of the scenarios *)

(** The body [{"output_pdb": "MOCKDATA"}] of the end-to-end scenario. *)
Definition mock_body : str :=
  lit "{" ++ [DQUOTE] ++ lit "output_pdb" ++ [DQUOTE] ++ lit ": "
    ++ [DQUOTE] ++ lit "MOCKDATA" ++ [DQUOTE] ++ lit "}".




(** A structure file of 500 lines, the first 450 of which start with ATOM. *)
Definition mock_structure : str :=
  join [LF] (repeat (lit "ATOM      1  N   MET A   1") 450
               ++ repeat (lit "HETATM 9999  O   HOH A 900") 50).

Definition no_files : files := fun _ => None.

(** A network where nothing answers. *)
Definition unreachable : Network :=
  {| http_get := fun _ => None; http_post := fun _ _ => None |}.

(** A network that answers every request with status 200 and the texts given. *)
Definition answering (download body : str) : Network :=
  {| http_get := fun _ => Some {| status_code := 200; content := download |};
     http_post := fun _ _ => Some {| status_code := 200; content := body |} |}.

(** The same network with another status on every answer. *)
Definition answering_status (code : N) (download body : str) : Network :=
  {| http_get := fun _ => Some {| status_code := code; content := download |};
     http_post := fun _ _ => Some {| status_code := code; content := body |} |}.

(** The events that are requests. *)
Definition is_request (e : event) : bool :=
  match e with
  | Get _ | Post _ _ => true
  | WriteText _ _ | Print _ => false
  end.

(** * The definitions on small inputs *)

Example split_trailing_line_feed :
  split LF (lit "a" ++ [LF] ++ lit "b" ++ [LF]) = [lit "a"; lit "b"; []].
Proof. reflexivity. Qed.

Example split_empty : split LF [] = [[]].
Proof. reflexivity. Qed.

Example join_three :
  join [LF] [lit "a"; lit "b"; lit "c"] = lit "a" ++ [LF] ++ lit "b" ++ [LF] ++ lit "c".
Proof. reflexivity. Qed.

Example extract_small :
  extract_truncated_records
    (lit "HEADER" ++ [LF] ++ lit "ATOM 1" ++ [LF] ++ lit " ATOM" ++ [LF]
       ++ lit "ATOMIC" ++ [LF] ++ lit "HETATM" ++ [LF] ++ lit "ATOM 2" ++ [LF])
  = lit "ATOM 1" ++ [LF] ++ lit "ATOMIC" ++ [LF] ++ lit "ATOM 2".
Proof. reflexivity. Qed.

Example universal_newlines_mixed :
  universal_newlines (lit "a" ++ [CR; LF] ++ lit "b" ++ [CR] ++ lit "c" ++ [LF])
  = lit "a" ++ [LF] ++ lit "b" ++ [LF] ++ lit "c" ++ [LF].
Proof. reflexivity. Qed.

Example text_lines_final_line_feed :
  text_lines (lit "a" ++ [LF] ++ lit "b" ++ [LF]) = [lit "a"; lit "b"]
  /\ text_lines [] = [] /\ text_lines [LF] = [[]].
Proof. repeat split. Qed.

Example loads_array :
  json_loads (lit " [1, -20, 2.5e3, true, false, null, [ ], {}] ")
  = Some (JArr [JInt 1; JInt (-20); JFloat (lit "2.5e3"); JBool true;
                JBool false; JNull; JArr []; JObj []]).
Proof. vm_compute. reflexivity. Qed.

Example loads_string_escapes :
  json_loads ([DQUOTE] ++ lit "a\n\u0041\ud83d\ude00" ++ [DQUOTE])
  = Some (JStr [97; 10; 65; 128512]%N).
Proof. vm_compute. reflexivity. Qed.

Example loads_refuses :
  json_loads [] = None
  /\ json_loads (lit "[1,]") = None
  /\ json_loads (lit "1 2") = None
  /\ json_loads (lit "01") = None
  /\ json_loads (lit "nul") = None
  /\ json_loads (lit "<html>") = None
  /\ json_loads ([DQUOTE] ++ lit "a" ++ [LF] ++ [DQUOTE]) = None.
Proof. vm_compute. repeat split. Qed.

Example dict_get_last_wins :
  dict_get [(lit "k", JInt 1); (lit "k", JInt 2)] (lit "k") = Some (JInt 2).
Proof. reflexivity. Qed.

Example response_repr_200 :
  Response_repr {| status_code := 200; content := [] |} = lit "<Response [200]>".
Proof. reflexivity. Qed.

(** * Properties of the string functions *)

Lemma str_eqb_spec (a b : str) : reflect (a = b) (str_eqb a b).
Proof.
  revert b; induction a as [|x a IH]; intros [|y b]; simpl;
    try (constructor; congruence).
  destruct (N.eqb_spec x y) as [->|Hne]; simpl.
  - destruct (IH b) as [->|Hne]; constructor; congruence.
  - constructor; congruence.
Qed.

Lemma split_not_nil sep s : split sep s <> [].
Proof.
  destruct s as [|c r]; simpl; [discriminate|].
  destruct (N.eqb c sep); [discriminate|].
  destruct (split sep r); discriminate.
Qed.

(** No piece of a split holds the separator. *)
Lemma split_sep_free sep s : Forall (fun l => ~ In sep l) (split sep s).
Proof.
  induction s as [|c r IH]; simpl.
  - constructor; [intros []|constructor].
  - destruct (N.eqb_spec c sep) as [->|Hne].
    + constructor; [intros []|exact IH].
    + destruct (split sep r) as [|l ls].
      * constructor; [|constructor].
        intros [Heq|[]]; congruence.
      * inversion IH; subst. constructor; [|assumption].
        intros [Heq|Hin]; [congruence|contradiction].
Qed.

Lemma split_sep_free_id sep s : ~ In sep s -> split sep s = [s].
Proof.
  induction s as [|c r IH]; simpl; intros Hnin; [reflexivity|].
  destruct (N.eqb_spec c sep) as [->|Hne]; [tauto|].
  rewrite IH by tauto. reflexivity.
Qed.

Lemma split_app sep x s :
  ~ In sep x -> split sep (x ++ sep :: s) = x :: split sep s.
Proof.
  induction x as [|c r IH]; simpl; intros Hnin.
  - rewrite N.eqb_refl. reflexivity.
  - destruct (N.eqb_spec c sep) as [->|Hne]; [tauto|].
    rewrite IH by tauto. reflexivity.
Qed.

(** Splitting undoes joining, for at least one piece and pieces without the
    separator. *)
Lemma split_join sep ls :
  ls <> [] -> Forall (fun l => ~ In sep l) ls -> split sep (join [sep] ls) = ls.
Proof.
  induction ls as [|x xs IH]; intros Hne Hall; [congruence|].
  inversion Hall as [|? ? Hx Hxs]; subst.
  destruct xs as [|y ys].
  - simpl. apply split_sep_free_id; assumption.
  - change (join [sep] (x :: y :: ys)) with (x ++ sep :: join [sep] (y :: ys)).
    rewrite split_app by assumption.
    rewrite IH; [reflexivity|discriminate|assumption].
Qed.

(** * The filter-and-join step *)

Lemma startswith_nil s : startswith s [] = true.
Proof. destruct s; reflexivity. Qed.

Lemma is_atom_firstn line : is_atom line = true <-> firstn 4 line = lit "ATOM".
Proof.
  unfold is_atom. change (lit "ATOM") with [65; 84; 79; 77]%N.
  destruct line as [|a [|b [|c [|d r]]]]; cbn [startswith firstn].
  1-4: rewrite ?andb_false_r; split; discriminate.
  rewrite startswith_nil, andb_true_r, !andb_true_iff, !N.eqb_eq.
  split; [intros (-> & -> & -> & ->); reflexivity|intros H; injection H; auto].
Qed.

Lemma is_atom_app rest : is_atom (lit "ATOM" ++ rest) = true.
Proof. apply is_atom_firstn. reflexivity. Qed.

Lemma is_atom_not_nil line : is_atom line = true -> line <> [].
Proof. intros H ->. discriminate. Qed.

Lemma Forall_firstn {A : Type} (P : A -> Prop) n (l : list A) :
  Forall P l -> Forall P (firstn n l).
Proof.
  intros H; revert n; induction H; intros [|n]; simpl; constructor; auto.
Qed.

Lemma Forall_filter {A : Type} (P : A -> Prop) f (l : list A) :
  Forall P l -> Forall P (filter f l).
Proof.
  induction 1 as [|x l Hx Hl IH]; simpl; [constructor|].
  destruct (f x); [constructor|]; assumption.
Qed.

Lemma Forall_filter_true {A : Type} f (l : list A) :
  Forall (fun x => f x = true) (filter f l).
Proof.
  induction l as [|x l IH]; simpl; [constructor|].
  destruct (f x) eqn:E; [constructor|]; assumption.
Qed.

Lemma last_Forall {A : Type} (P : A -> Prop) (l : list A) d :
  Forall P l -> l <> [] -> P (last l d).
Proof.
  induction 1 as [|x l Hx Hl IH]; intros Hne; [congruence|].
  destruct l as [|y l]; [exact Hx|].
  change (P (last (y :: l) d)). apply IH. discriminate.
Qed.

Lemma subseq_refl {A : Type} (l : list A) : subseq l l.
Proof. induction l; constructor; assumption. Qed.

Lemma subseq_trans {A : Type} (a b c : list A) :
  subseq a b -> subseq b c -> subseq a c.
Proof.
  intros Hab Hbc; revert a Hab.
  induction Hbc as [|x b c Hbc IH|x b c Hbc IH]; intros a Hab.
  - exact Hab.
  - constructor. apply IH, Hab.
  - inversion Hab; subst.
    + constructor. apply IH. assumption.
    + apply subseq_keep. apply IH. assumption.
Qed.

Lemma subseq_filter {A : Type} f (l : list A) : subseq (filter f l) l.
Proof.
  induction l as [|x l IH]; simpl; [constructor|].
  destruct (f x); constructor; assumption.
Qed.

Lemma subseq_nil_l {A : Type} (l : list A) : subseq [] l.
Proof. induction l; constructor; assumption. Qed.

Lemma subseq_firstn {A : Type} n (l : list A) : subseq (firstn n l) l.
Proof.
  revert n; induction l as [|x l IH]; intros [|n]; simpl.
  1-3: apply subseq_nil_l.
  apply subseq_keep, IH.
Qed.

Lemma subseq_removelast {A : Type} (l : list A) : subseq (removelast l) l.
Proof.
  induction l as [|x l IH]; [constructor|].
  destruct l as [|y l]; [apply subseq_nil_l|].
  change (removelast (x :: y :: l)) with (x :: removelast (y :: l)).
  apply subseq_keep, IH.
Qed.

(** The lines of a joined text are the joined pieces, when each piece is a
    line: not empty and without a line feed. *)
Lemma text_lines_join ls :
  Forall (fun l => l <> [] /\ ~ In LF l) ls -> text_lines (join [LF] ls) = ls.
Proof.
  intros Hall. destruct ls as [|x xs] eqn:E; [reflexivity|]. rewrite <- E in *.
  assert (Hne : ls <> []) by (subst; discriminate).
  unfold text_lines.
  rewrite split_join; [|assumption|].
  - assert (Hlast : last ls [] <> []).
    { apply (last_Forall (P := fun l => l <> [])); [|assumption].
      eapply Forall_impl; [|exact Hall]. intros l [H _]; exact H. }
    destruct (last ls []); [congruence|reflexivity].
  - eapply Forall_impl; [|exact Hall]. intros l [_ H]; exact H.
Qed.

Lemma atom_lines_are_lines content :
  Forall (fun l => l <> [] /\ ~ In LF l) (atom_lines content).
Proof.
  unfold atom_lines. apply Forall_forall. intros l Hin.
  apply filter_In in Hin as [Hin Hatom]. split.
  - apply is_atom_not_nil, Hatom.
  - pose proof (split_sep_free LF content) as H.
    rewrite Forall_forall in H. apply H, Hin.
Qed.

(** Read back by lines, the result is the first 400 kept lines. *)
Lemma extract_lines content :
  text_lines (extract_truncated_records content) = firstn 400 (atom_lines content).
Proof.
  unfold extract_truncated_records. apply text_lines_join.
  apply Forall_firstn, atom_lines_are_lines.
Qed.

Lemma line_count_extract content :
  line_count (extract_truncated_records content)
  = Nat.min 400 (length (atom_lines content)).
Proof. unfold line_count. rewrite extract_lines. apply length_firstn. Qed.

(** Dropping the empty piece after a final line feed loses no kept line. *)
Lemma atom_lines_text_lines content :
  atom_lines content = filter is_atom (text_lines content).
Proof.
  unfold atom_lines, text_lines.
  destruct (last (split LF content) []) eqn:E; [|reflexivity].
  rewrite (app_removelast_last [] (split_not_nil LF content)) at 1.
  rewrite E, filter_app. simpl. apply app_nil_r.
Qed.

(** C1: for every content, the number of lines of
    [extract_truncated_records content] is the smaller of 400 and the number
    of lines of the content that start with ATOM.  The lines of the content
    are counted as the source splits them and, to the same effect, as
    [text_lines] reads them; a result that is not empty also has that many
    pieces when split at line feeds. *)
Theorem truncation_bound content :
  line_count (extract_truncated_records content)
    = Nat.min 400 (length (filter is_atom (split LF content)))
  /\ line_count (extract_truncated_records content)
    = Nat.min 400 (length (filter is_atom (text_lines content)))
  /\ (extract_truncated_records content <> [] ->
      length (split LF (extract_truncated_records content))
        = Nat.min 400 (length (filter is_atom (split LF content)))).
Proof.
  pose proof (line_count_extract content) as H.
  split; [exact H|]. split; [rewrite <- atom_lines_text_lines; exact H|].
  intros Hne. fold (atom_lines content). rewrite <- length_firstn.
  unfold extract_truncated_records in *.
  rewrite split_join; [reflexivity| |].
  - intros E. rewrite E in Hne. apply Hne. reflexivity.
  - apply Forall_firstn. eapply Forall_impl; [|apply atom_lines_are_lines].
    intros l [_ Hl]; exact Hl.
Qed.

(** C4: every line of the result starts with ATOM, and the lines of the
    result are a subsequence of the lines of the content, in the source's
    splitting and in [text_lines]. *)
Theorem filtered_lines_in_order content :
  Forall (fun line => startswith line (lit "ATOM") = true)
         (text_lines (extract_truncated_records content))
  /\ subseq (text_lines (extract_truncated_records content)) (split LF content)
  /\ subseq (text_lines (extract_truncated_records content)) (text_lines content).
Proof.
  rewrite extract_lines. split; [|split].
  - apply Forall_firstn. apply (Forall_filter_true is_atom).
  - eapply subseq_trans; [apply subseq_firstn|apply subseq_filter].
  - rewrite atom_lines_text_lines.
    eapply subseq_trans; [apply subseq_firstn|apply subseq_filter].
Qed.

(** * Runs of the script *)

#[local] Arguments lit : simpl never.
#[local] Arguments pdb : simpl never.
#[local] Arguments output_pdb : simpl never.
#[local] Arguments download_url : simpl never.
#[local] Arguments generate_url : simpl never.
#[local] Arguments extract_truncated_records : simpl never.
#[local] Arguments universal_newlines : simpl never.
#[local] Arguments json_loads : simpl never.
#[local] Arguments preview : simpl never.
#[local] Arguments payload : simpl never.
#[local] Arguments join : simpl never.
#[local] Arguments write_file : simpl never.
#[local] Arguments persist_output : simpl never.
#[local] Arguments get_reduced_pdb : simpl never.
#[local] Arguments ensure_local_structure_file : simpl never.
#[local] Arguments main : simpl never.
#[local] Arguments text : simpl never.
#[local] Arguments encodable : simpl never.

(** Unfold the script down to the oracles it consults. *)
Ltac run_script :=
  unfold main, persist_output, submit_generation_request, get_reduced_pdb,
    ensure_local_structure_file, requests_get, requests_post, read_text,
    path_exists, write_text_value, write_text, getitem, loads, print, emit,
    bind, ret, raise in *.

Lemma write_file_same fs p d : write_file fs p d p = Some d.
Proof.
  unfold write_file. destruct (str_eqb_spec p p); [reflexivity|congruence].
Qed.

Lemma write_file_other fs p d q : q <> p -> write_file fs p d q = fs q.
Proof.
  intros Hne. unfold write_file.
  destruct (str_eqb_spec q p); [congruence|reflexivity].
Qed.

(** The text of a response can always be written. *)
Lemma text_encodable r : encodable (text r) = true.
Proof.
  unfold text, encodable. induction (content r) as [|c l IH]; [reflexivity|].
  cbn [map forallb]. rewrite IH, andb_true_r.
  destruct (is_surrogate c) eqn:E; [reflexivity|]. rewrite E. reflexivity.
Qed.

Lemma firstn_encodable n s : encodable s = true -> encodable (firstn n s) = true.
Proof.
  unfold encodable. revert n; induction s as [|c s IH]; intros [|n] H;
    try reflexivity.
  cbn [firstn forallb] in *. apply andb_true_iff in H as [Hc Hs].
  rewrite Hc, (IH n Hs). reflexivity.
Qed.

Lemma encodable_app a b : encodable (a ++ b) = encodable a && encodable b.
Proof. apply forallb_app. Qed.

Lemma lit_encodable s : encodable (lit s) = true.
Proof.
  unfold lit, encodable.
  induction (list_ascii_of_string s) as [|a l IH]; [reflexivity|].
  cbn [map forallb]. rewrite IH, andb_true_r.
  unfold is_surrogate. pose proof (N_ascii_bounded a) as Hlt.
  destruct (N.leb_spec 55296 (N_of_ascii a)) as [Hle|_]; [lia|reflexivity].
Qed.

(** What line 23 prints can always be written to the console: the response
    as shown, the label and the dots are plain characters, and the text of a
    response holds no surrogate. *)
Lemma preview_text_encodable r : encodable (preview_text r) = true.
Proof.
  unfold preview_text, Response_repr.
  rewrite !encodable_app, !lit_encodable.
  rewrite (firstn_encodable 200 (text r) (text_encodable r)). reflexivity.
Qed.

Lemma write_text_encodable p data fs :
  encodable data = true ->
  write_text p data fs
  = {| outcome := inr tt; files_after := write_file fs p data;
       events := [WriteText p data] |}.
Proof. intros H. unfold write_text. rewrite H. reflexivity. Qed.

Lemma write_text_refused p data fs :
  encodable data = false ->
  write_text p data fs
  = {| outcome := inl UnicodeEncodeError; files_after := write_file fs p [];
       events := [WriteText p []] |}.
Proof. intros H. unfold write_text. rewrite H. reflexivity. Qed.

Lemma output_pdb_not_pdb : output_pdb <> pdb.
Proof. discriminate. Qed.

Lemma bind_value {A B : Type} (m : M A) (k : A -> M B) fs a fs1 ev1 :
  m fs = {| outcome := inr a; files_after := fs1; events := ev1 |} ->
  bind m k fs
  = {| outcome := outcome (k a fs1);
       files_after := files_after (k a fs1);
       events := ev1 ++ events (k a fs1) |}.
Proof. intros H. unfold bind. rewrite H. reflexivity. Qed.

Lemma bind_raises {A B : Type} (m : M A) (k : A -> M B) fs e fs1 ev1 :
  m fs = {| outcome := inl e; files_after := fs1; events := ev1 |} ->
  bind m k fs = {| outcome := inl e; files_after := fs1; events := ev1 |}.
Proof. intros H. unfold bind. rewrite H. reflexivity. Qed.

(** ** The download guard, case by case *)

Lemma ensure_present net fs content :
  fs pdb = Some content ->
  ensure_local_structure_file net fs
  = {| outcome := inr tt; files_after := fs; events := [] |}.
Proof. intros H. run_script. cbn. rewrite H. reflexivity. Qed.

Lemma ensure_download net fs r :
  fs pdb = None -> http_get net download_url = Some r ->
  ensure_local_structure_file net fs
  = {| outcome := inr tt;
       files_after := write_file fs pdb (text r);
       events := [Get download_url; WriteText pdb (text r)] |}.
Proof.
  intros H G. run_script. cbn. rewrite H. cbn. rewrite G. cbn.
  rewrite text_encodable. reflexivity.
Qed.

Lemma ensure_unreachable net fs :
  fs pdb = None -> http_get net download_url = None ->
  ensure_local_structure_file net fs
  = {| outcome := inl RequestException;
       files_after := fs;
       events := [Get download_url] |}.
Proof. intros H G. run_script. cbn. rewrite H. cbn. rewrite G. reflexivity. Qed.

Lemma get_reduced_pdb_present net fs content :
  fs pdb = Some content ->
  get_reduced_pdb net fs
  = {| outcome := inr (extract_truncated_records (universal_newlines content));
       files_after := fs; events := [] |}.
Proof.
  intros H. unfold get_reduced_pdb.
  rewrite (bind_value _ _ _ (ensure_present net _ H)).
  unfold bind, read_text, ret. rewrite H. reflexivity.
Qed.

Lemma get_reduced_pdb_download net fs r :
  fs pdb = None -> http_get net download_url = Some r ->
  get_reduced_pdb net fs
  = {| outcome := inr (extract_truncated_records (universal_newlines (text r)));
       files_after := write_file fs pdb (text r);
       events := [Get download_url; WriteText pdb (text r)] |}.
Proof.
  intros H G. unfold get_reduced_pdb.
  rewrite (bind_value _ _ _ (ensure_download _ _ H G)).
  unfold bind, read_text, ret. rewrite write_file_same. reflexivity.
Qed.

Lemma get_reduced_pdb_unreachable net fs :
  fs pdb = None -> http_get net download_url = None ->
  get_reduced_pdb net fs
  = {| outcome := inl RequestException;
       files_after := fs;
       events := [Get download_url] |}.
Proof.
  intros H G. unfold get_reduced_pdb.
  apply bind_raises, ensure_unreachable; assumption.
Qed.

(** [get_reduced_pdb] never touches [output.pdb] and never posts. *)
Lemma get_reduced_pdb_frame net fs :
  files_after (get_reduced_pdb net fs) output_pdb = fs output_pdb
  /\ forall e, In e (events (get_reduced_pdb net fs)) ->
       e = Get download_url \/ exists d, e = WriteText pdb d.
Proof.
  destruct (fs pdb) as [content|] eqn:H.
  - rewrite (get_reduced_pdb_present net _ H). cbn. split; [reflexivity|tauto].
  - destruct (http_get net download_url) as [r|] eqn:G.
    + rewrite (get_reduced_pdb_download _ _ H G). cbn. split.
      * apply write_file_other, output_pdb_not_pdb.
      * intros e [<-|[<-|[]]]; eauto.
    + rewrite (get_reduced_pdb_unreachable _ _ H G). cbn.
      split; [reflexivity|]. intros e [<-|[]]; auto.
Qed.

(** ** The persist step and the whole script, case by case *)

Lemma print_preview r fs :
  print (preview r) fs
  = {| outcome := inr tt; files_after := fs; events := [Print (preview_text r)] |}.
Proof. reflexivity. Qed.

Lemma persist_output_spec r fs :
  persist_output r fs
  = match json_loads (text r) with
    | None =>
        {| outcome := inl JSONDecodeError; files_after := fs;
           events := [Print (preview_text r)] |}
    | Some (JObj pairs) =>
        match dict_get pairs (lit "output_pdb") with
        | None =>
            {| outcome := inl KeyError; files_after := fs;
               events := [Print (preview_text r)] |}
        | Some (JStr s) =>
            if encodable s then
              {| outcome := inr tt; files_after := write_file fs output_pdb s;
                 events := [Print (preview_text r); WriteText output_pdb s] |}
            else
              {| outcome := inl UnicodeEncodeError;
                 files_after := write_file fs output_pdb [];
                 events := [Print (preview_text r); WriteText output_pdb []] |}
        | Some _ =>
            {| outcome := inl TypeError; files_after := fs;
               events := [Print (preview_text r)] |}
        end
    | Some _ =>
        {| outcome := inl TypeError; files_after := fs;
           events := [Print (preview_text r)] |}
    end.
Proof.
  unfold persist_output.
  rewrite (bind_value _ _ _ (print_preview r fs)).
  unfold bind, loads, getitem, write_text_value, write_text, ret, raise.
  destruct (json_loads (text r)) as [[| | | | | |pairs]|]; try reflexivity.
  cbn. destruct (dict_get pairs (lit "output_pdb")) as [[| | | |s| |]|];
    try reflexivity.
  cbn. destruct (encodable s); reflexivity.
Qed.

Lemma main_spec net fs :
  main net fs
  = match outcome (get_reduced_pdb net fs) with
    | inl e =>
        {| outcome := inl e;
           files_after := files_after (get_reduced_pdb net fs);
           events := events (get_reduced_pdb net fs) |}
    | inr input_pdb =>
        match http_post net generate_url (payload input_pdb) with
        | None =>
            {| outcome := inl RequestException;
               files_after := files_after (get_reduced_pdb net fs);
               events := events (get_reduced_pdb net fs)
                         ++ [Post generate_url (payload input_pdb)] |}
        | Some r =>
            {| outcome :=
                 outcome (persist_output r (files_after (get_reduced_pdb net fs)));
               files_after :=
                 files_after (persist_output r (files_after (get_reduced_pdb net fs)));
               events :=
                 events (get_reduced_pdb net fs)
                 ++ Post generate_url (payload input_pdb)
                 :: events (persist_output r (files_after (get_reduced_pdb net fs))) |}
        end
    end.
Proof.
  unfold main at 1, bind at 1.
  destruct (outcome (get_reduced_pdb net fs)) as [e|input_pdb]; [reflexivity|].
  unfold submit_generation_request, requests_post, bind, emit, ret, raise. cbn.
  destruct (http_post net generate_url (payload input_pdb)); reflexivity.
Qed.

(** The events of the persist step: the preview, then at most the write. *)
Lemma persist_output_events r fs :
  events (persist_output r fs) = [Print (preview_text r)]
  \/ exists s, events (persist_output r fs)
               = [Print (preview_text r); WriteText output_pdb s].
Proof.
  rewrite persist_output_spec.
  destruct (json_loads (text r)) as [[| | | | | |pairs]|]; cbn; auto.
  destruct (dict_get pairs (lit "output_pdb")) as [[| | | |s| |]|]; cbn; eauto.
  destruct (encodable s); cbn; eauto.
Qed.





Lemma get_reduced_pdb_no_post net fs url body :
  ~ In (Post url body) (events (get_reduced_pdb net fs)).
Proof.
  intros Hin. apply (proj2 (get_reduced_pdb_frame net fs)) in Hin.
  destruct Hin as [Heq|[d' Heq]]; discriminate.
Qed.





(** C9: a content without a line that starts with ATOM gives the empty string,
    which has no line and is not the text of one empty line; an existing empty
    structure file is such a content: no request is made for it, and the
    request that follows carries the empty string as [input_pdb]. *)
Theorem no_atom_lines_empty_string :
  (forall content,
      filter is_atom (split LF content) = [] ->
      extract_truncated_records content = []
      /\ extract_truncated_records content <> [LF]
      /\ line_count (extract_truncated_records content) = 0)
  /\ (forall net fs,
        fs pdb = Some [] ->
        get_reduced_pdb net fs
        = {| outcome := inr []; files_after := fs; events := [] |}
        /\ exists rest,
            events (main net fs)
            = Post generate_url
                (JObj [ (lit "input_pdb", JStr []);
                        (lit "contigs", JStr (lit "A20-60/0 50-100"));
                        (lit "hotspot_res",
                          JArr [JStr (lit "A50"); JStr (lit "A51");
                                JStr (lit "A52"); JStr (lit "A53");
                                JStr (lit "A54")]);
                        (lit "diffusion_steps", JInt 15) ]) :: rest).
Proof.
  split.
  - intros content H. unfold extract_truncated_records, atom_lines.
    rewrite H. repeat split. discriminate.
  - intros net fs Hfs.
    assert (Hg : get_reduced_pdb net fs
                 = {| outcome := inr []; files_after := fs; events := [] |})
      by exact (get_reduced_pdb_present net fs Hfs).
    split; [exact Hg|].
    rewrite main_spec, Hg. cbn.
    destruct (http_post net generate_url (payload [])); cbn;
      eexists; reflexivity.
Qed.

(** C10: the filter looks at the first four characters and at nothing else:
    a line is kept exactly when they are ATOM, whatever follows them, so every
    such line of the content is among the kept lines; and the lines of the
    result are the first 400 kept lines themselves, whole.  A line ATOMIC that
    ends in a carriage return is returned with it. *)
Theorem prefix_test_keeps_whole_lines content :
  (forall line, is_atom line = true <-> firstn 4 line = lit "ATOM")
  /\ (forall rest, is_atom (lit "ATOM" ++ rest) = true)
  /\ (forall line,
        In line (split LF content) -> firstn 4 line = lit "ATOM" ->
        In line (atom_lines content))
  /\ text_lines (extract_truncated_records content)
     = firstn 400 (filter is_atom (split LF content))
  /\ extract_truncated_records (lit "ATOMIC" ++ [CR; LF] ++ lit "HETATM")
     = lit "ATOMIC" ++ [CR].
Proof.
  split; [exact is_atom_firstn|]. split; [exact is_atom_app|].
  split; [|split].
  - intros line Hin H4. apply filter_In. split; [exact Hin|].
    apply is_atom_firstn, H4.
  - apply extract_lines.
  - reflexivity.
Qed.

(** C3: a request that the script posts goes to the generate endpoint and its
    body has the four keys in this order: [input_pdb] with what
    [get_reduced_pdb] returned, [contigs], [hotspot_res] with the five
    residues in order, and [diffusion_steps] with 15.  When [get_reduced_pdb]
    returns, that request is made, right after the events of
    [get_reduced_pdb], and no other request is posted. *)
Theorem payload_shape net fs :
  (forall url body,
      In (Post url body) (events (main net fs)) ->
      url = generate_url
      /\ exists input_pdb,
          outcome (get_reduced_pdb net fs) = inr input_pdb
          /\ body = JObj [ (lit "input_pdb", JStr input_pdb);
                           (lit "contigs", JStr (lit "A20-60/0 50-100"));
                           (lit "hotspot_res",
                             JArr [JStr (lit "A50"); JStr (lit "A51");
                                   JStr (lit "A52"); JStr (lit "A53");
                                   JStr (lit "A54")]);
                           (lit "diffusion_steps", JInt 15) ])
  /\ (forall input_pdb,
        outcome (get_reduced_pdb net fs) = inr input_pdb ->
        exists rest,
          events (main net fs)
          = events (get_reduced_pdb net fs)
            ++ Post generate_url
                 (JObj [ (lit "input_pdb", JStr input_pdb);
                         (lit "contigs", JStr (lit "A20-60/0 50-100"));
                         (lit "hotspot_res",
                           JArr [JStr (lit "A50"); JStr (lit "A51");
                                 JStr (lit "A52"); JStr (lit "A53");
                                 JStr (lit "A54")]);
                         (lit "diffusion_steps", JInt 15) ])
            :: rest
          /\ forall url body, ~ In (Post url body) rest).
Proof.
  pose proof (get_reduced_pdb_no_post net fs) as Hnp.
  split.
  - intros url body. rewrite main_spec.
    destruct (outcome (get_reduced_pdb net fs)) as [e0|input_pdb]; cbn.
    + intros Hin. destruct (Hnp _ _ Hin).
    + assert (Hhere : Post generate_url (payload input_pdb) = Post url body ->
                      url = generate_url
                      /\ exists i, @inr exn (list N) input_pdb = inr i
                                   /\ body = payload i).
      { intros Heq. inversion Heq; subst. eauto. }
      destruct (http_post net generate_url (payload input_pdb)) as [r|]; cbn.
      * destruct (persist_output_events r (files_after (get_reduced_pdb net fs)))
          as [->|[s ->]];
          intros Hin; apply in_app_or in Hin as [Hin|Hin];
          try (destruct (Hnp _ _ Hin)); cbn in Hin;
          intuition (try discriminate).
      * intros Hin; apply in_app_or in Hin as [Hin|Hin];
          try (destruct (Hnp _ _ Hin)); cbn in Hin;
          intuition (try discriminate).
  - intros input_pdb Hout. rewrite main_spec, Hout.
    fold (payload input_pdb).
    destruct (http_post net generate_url (payload input_pdb)) as [r|]; cbn.
    + eexists. split; [reflexivity|]. intros url body.
      destruct (persist_output_events r (files_after (get_reduced_pdb net fs)))
        as [->|[s ->]]; cbn; intuition discriminate.
    + exists []. split; [reflexivity|]. intros url body [].
Qed.

(** ** Universal newlines keep the lines that start with ATOM *)

Lemma split_cons_sep sep r : split sep (sep :: r) = [] :: split sep r.
Proof. simpl. rewrite N.eqb_refl. reflexivity. Qed.

Lemma split_cons_other sep c r :
  c <> sep ->
  split sep (c :: r) = (c :: hd [] (split sep r)) :: tl (split sep r).
Proof.
  intros Hne. simpl. destruct (N.eqb_spec c sep); [contradiction|].
  pose proof (split_not_nil sep r). destruct (split sep r); [contradiction|].
  reflexivity.
Qed.

Lemma is_atom_before_cr h rest :
  is_atom (h ++ CR :: rest) = true -> is_atom h = true.
Proof.
  rewrite !is_atom_firstn.
  destruct h as [|a [|b [|c [|d h]]]]; simpl; intros H;
    solve [discriminate H | exact H].
Qed.

Lemma atom_count_parts (l l' : list (list N)) :
  l <> [] -> l' <> [] ->
  (hd [] l' = hd [] l \/ exists rest, hd [] l = hd [] l' ++ CR :: rest) ->
  length (filter is_atom (tl l)) <= length (filter is_atom (tl l')) ->
  length (filter is_atom l) <= length (filter is_atom l').
Proof.
  destruct l as [|h t]; [congruence|]. destruct l' as [|h' t']; [congruence|].
  simpl. intros _ _ Hhd Htl.
  assert (Himp : is_atom h = true -> is_atom h' = true).
  { destruct Hhd as [->|[rest ->]]; [auto|apply is_atom_before_cr]. }
  destruct (is_atom h); [rewrite Himp by reflexivity; simpl; lia|].
  destruct (is_atom h'); simpl; lia.
Qed.

Lemma universal_newlines_lines n s :
  length s <= n ->
  (hd [] (split LF (universal_newlines s)) = hd [] (split LF s)
   \/ exists rest,
       hd [] (split LF s) = hd [] (split LF (universal_newlines s)) ++ CR :: rest)
  /\ length (filter is_atom (tl (split LF s)))
     <= length (filter is_atom (tl (split LF (universal_newlines s)))).
Proof.
  revert s; induction n as [|n IH]; intros s Hlen.
  - destruct s; [|simpl in Hlen; lia]. simpl. auto.
  - destruct s as [|c r]; [simpl; auto|]. simpl in Hlen.
    assert (Hr : length r <= n) by lia.
    assert (Hcount : forall s', length s' <= n ->
              length (filter is_atom (split LF s'))
              <= length (filter is_atom (split LF (universal_newlines s')))).
    { intros s' Hs'. destruct (IH s' Hs') as [Hhd Htl].
      apply atom_count_parts; auto using split_not_nil. }
    destruct (N.eqb_spec c CR) as [->|Hcr].
    + rewrite (@split_cons_other LF CR r) by discriminate.
      destruct r as [|d r'].
      * simpl. split; [right; exists []; reflexivity|lia].
      * change (universal_newlines (CR :: d :: r'))
          with (LF :: if N.eqb d LF then universal_newlines r'
                      else universal_newlines (d :: r')).
        rewrite split_cons_sep. cbn [hd tl].
        split; [right; eexists; reflexivity|].
        destruct (N.eqb_spec d LF) as [->|Hd].
        -- rewrite split_cons_sep. cbn [tl]. apply Hcount. simpl in Hr. lia.
        -- destruct (IH (d :: r') Hr) as [_ Htl].
           etransitivity; [exact Htl|].
           pose proof (split_not_nil LF (universal_newlines (d :: r'))).
           destruct (split LF (universal_newlines (d :: r'))) as [|h' t'];
             [contradiction|].
           simpl. destruct (is_atom h'); simpl; lia.
    + change (universal_newlines (c :: r)) with
        (if N.eqb c CR then
           LF :: match r with
                 | [] => []
                 | d :: r' => if N.eqb d LF then universal_newlines r'
                              else universal_newlines r
                 end
         else c :: universal_newlines r).
      destruct (N.eqb_spec c CR); [contradiction|].
      destruct (N.eqb_spec c LF) as [->|Hlf].
      * rewrite !split_cons_sep. cbn [hd tl]. split; [left; reflexivity|].
        apply Hcount, Hr.
      * rewrite !split_cons_other by assumption. cbn [hd tl].
        destruct (IH r Hr) as [[Hhd|[rest Hhd]] Htl]; split; try exact Htl.
        -- left. rewrite Hhd. reflexivity.
        -- right. exists rest. rewrite Hhd. reflexivity.
Qed.

(** Reading in text mode loses no line that starts with ATOM. *)
Lemma atom_lines_universal_newlines s :
  length (atom_lines s) <= length (atom_lines (universal_newlines s)).
Proof.
  destruct (universal_newlines_lines s (le_n (length s))) as [Hhd Htl].
  apply atom_count_parts; auto using split_not_nil.
Qed.

(** * The end-to-end scenario *)

Lemma mock_body_loads :
  json_loads mock_body = Some (JObj [(lit "output_pdb", JStr (lit "MOCKDATA"))]).
Proof. vm_compute. reflexivity. Qed.

(** C2: with a structure file of 500 lines, 450 of which start with ATOM, and
    a service that answers the request with the body
    [{"output_pdb": "MOCKDATA"}], the script ends normally, makes no download,
    posts one request whose [input_pdb] field has exactly 400 lines, prints the
    preview and writes [output.pdb], which then holds exactly MOCKDATA. *)
Theorem end_to_end net fs content r :
  fs pdb = Some content ->
  line_count content = 500 ->
  length (filter is_atom (text_lines content)) = 450 ->
  (forall body, http_post net generate_url body = Some r) ->
  text r = mock_body ->
  exists input_pdb pairs,
    outcome (main net fs) = inr tt
    /\ files_after (main net fs) output_pdb = Some (lit "MOCKDATA")
    /\ events (main net fs)
       = [Post generate_url (JObj pairs); Print (preview_text r);
          WriteText output_pdb (lit "MOCKDATA")]
    /\ map fst pairs
       = [lit "input_pdb"; lit "contigs"; lit "hotspot_res"; lit "diffusion_steps"]
    /\ dict_get pairs (lit "input_pdb") = Some (JStr input_pdb)
    /\ line_count input_pdb = 400.
Proof.
  intros Hfs H500 H450 Hpost Htext.
  exists (extract_truncated_records (universal_newlines content)).
  eexists.
  rewrite main_spec, (get_reduced_pdb_present net _ Hfs). cbn.
  rewrite Hpost, persist_output_spec, Htext, mock_body_loads.
  cbn.
  split; [reflexivity|]. split; [apply write_file_same|].
  split; [unfold payload; reflexivity|].
  split; [reflexivity|]. split; [reflexivity|].
  rewrite line_count_extract.
  pose proof (atom_lines_universal_newlines content) as Hle.
  rewrite <- atom_lines_text_lines in H450. lia.
Qed.

(** * The theorems at concrete runs *)

(** C2 at [mock_structure] and a service that answers with [mock_body]. *)
Lemma end_to_end_witness :
  exists input_pdb pairs,
    outcome (main (answering [] mock_body) (write_file no_files pdb mock_structure))
    = inr tt
    /\ files_after
         (main (answering [] mock_body) (write_file no_files pdb mock_structure))
         output_pdb = Some (lit "MOCKDATA")
    /\ events
         (main (answering [] mock_body) (write_file no_files pdb mock_structure))
       = [Post generate_url (JObj pairs);
          Print (preview_text {| status_code := 200; content := mock_body |});
          WriteText output_pdb (lit "MOCKDATA")]
    /\ map fst pairs
       = [lit "input_pdb"; lit "contigs"; lit "hotspot_res"; lit "diffusion_steps"]
    /\ dict_get pairs (lit "input_pdb") = Some (JStr input_pdb)
    /\ line_count input_pdb = 400.
Proof.
  apply (@end_to_end (answering [] mock_body)
           (write_file no_files pdb mock_structure) mock_structure
           {| status_code := 200; content := mock_body |}).
  - reflexivity.
  - vm_compute. reflexivity.
  - vm_compute. reflexivity.
  - intros body. reflexivity.
  - reflexivity.
Defined.




(** * The decoder's bounds are enough

    [scan_once] counts nesting depth down from the length of the text, and the
    loops of [JSONObject] and [JSONArray] count iterations down from it.  Every
    step consumes a character, so neither count runs out before the text does:
    a larger count gives the same result. *)

Unset Implicit Arguments.

Lemma skip_ws_length s : length (skip_ws s) <= length s.
Proof.
  induction s as [|c r IH]; simpl; [lia|]. destruct (is_ws c); simpl; lia.
Qed.

Lemma skip_ws_cons s c r : skip_ws s = c :: r -> length r < length s.
Proof. intros H. pose proof (skip_ws_length s). rewrite H in *. simpl in *. lia. Qed.

Lemma scanstring_length n s :
  length s <= n ->
  forall acc t r, scanstring s acc = Some (t, r) -> length r < length s.
Proof.
  revert s; induction n as [|n IH]; intros s Hlen acc t r;
    (destruct s as [|c r0]; [discriminate|]); simpl in Hlen; [lia|].
  simpl.
  repeat match goal with
         | |- context [if ?b then _ else _] => destruct b
         | |- context [match ?x with _ => _ end] => destruct x
         end;
    try discriminate;
    try (intros H; injection H as _ <-; simpl; lia);
    intros H; apply IH in H; simpl in *; lia.
Qed.

Lemma scanstring_consumes s acc t r :
  scanstring s acc = Some (t, r) -> length r < length s.
Proof. apply (scanstring_length (length s) s (le_n _)). Qed.

Lemma span_digits_length s d r :
  span_digits s = (d, r) -> length s = length d + length r.
Proof.
  revert d r; induction s as [|c s IH]; simpl; intros d r H.
  - injection H as <- <-. reflexivity.
  - destruct (is_digit c).
    + destruct (span_digits s) as [d' r'] eqn:E. injection H as <- <-.
      simpl. rewrite (IH _ _ eq_refl). reflexivity.
    + injection H as <- <-. reflexivity.
Qed.

Lemma match_integer_length s neg ds r :
  match_integer s = Some (neg, ds, r) -> length r < length s.
Proof.
  unfold match_integer.
  destruct s as [|c s']; [discriminate|].
  destruct (N.eqb c (ch "-")).
  - destruct s' as [|c' s'']; [discriminate|].
    destruct (N.eqb c' (ch "0")); [intros H; injection H as _ _ <-; simpl; lia|].
    destruct (is_digit c'); [|discriminate].
    destruct (span_digits s'') as [d r'] eqn:E. apply span_digits_length in E.
    intros H; injection H as _ _ <-. simpl. lia.
  - destruct (N.eqb c (ch "0")); [intros H; injection H as _ _ <-; simpl; lia|].
    destruct (is_digit c); [|discriminate].
    destruct (span_digits s') as [d r'] eqn:E. apply span_digits_length in E.
    intros H; injection H as _ _ <-. simpl. lia.
Qed.

Lemma match_frac_length s f r : match_frac s = (f, r) -> length r <= length s.
Proof.
  unfold match_frac. destruct s as [|p s']; [intros H; injection H as _ <-; lia|].
  destruct (N.eqb p (ch ".")); [|intros H; injection H as _ <-; lia].
  destruct (span_digits s') as [d r'] eqn:E. apply span_digits_length in E.
  destruct d; intros H; injection H as _ <-; simpl in *; lia.
Qed.

Lemma match_exp_length s x r : match_exp s = (x, r) -> length r <= length s.
Proof.
  unfold match_exp. destruct s as [|e s']; [intros H; injection H as _ <-; lia|].
  destruct (N.eqb e (ch "e") || N.eqb e (ch "E"));
    [|intros H; injection H as _ <-; lia].
  destruct (match s' with
            | [] => ([], s')
            | g :: t =>
                if N.eqb g (ch "+") || N.eqb g (ch "-") then ([g], t) else ([], s')
            end) as [sign r1] eqn:Es.
  assert (Hr1 : length r1 <= length s').
  { destruct s' as [|g t]; [injection Es as _ <-; lia|].
    destruct (N.eqb g (ch "+") || N.eqb g (ch "-"));
      injection Es as _ <-; simpl; lia. }
  destruct (span_digits r1) as [d r'] eqn:E. apply span_digits_length in E.
  destruct d; intros H; injection H as _ <-; simpl in *; lia.
Qed.

Lemma match_number_length s v r :
  match_number s = Some (v, r) -> length r < length s.
Proof.
  unfold match_number.
  destruct (match_integer s) as [[[neg ds] r1]|] eqn:Ei; [|discriminate].
  apply match_integer_length in Ei.
  destruct (match_frac r1) as [frac r2] eqn:Ef. apply match_frac_length in Ef.
  destruct (match_exp r2) as [exp r3] eqn:Ee. apply match_exp_length in Ee.
  destruct frac, exp; intros H; injection H as _ <-; lia.
Qed.

Lemma object_members_length scan :
  consumes scan ->
  forall bound s acc v r,
    object_members scan bound s acc = Some (v, r) -> length r < length s.
Proof.
  intros Hscan. induction bound as [|b IH]; intros s acc v r; [discriminate|].
  cbn [object_members].
  destruct (scanstring s []) as [[key r0]|] eqn:Ek; [|discriminate].
  apply scanstring_consumes in Ek.
  destruct (skip_ws r0) as [|c r1] eqn:E1; [discriminate|].
  apply skip_ws_cons in E1.
  destruct (N.eqb c (ch ":")); [|discriminate].
  destruct (scan (skip_ws r1)) as [[value r2]|] eqn:Ev; [|discriminate].
  apply Hscan in Ev. pose proof (skip_ws_length r1) as Hws.
  destruct (skip_ws r2) as [|d r3] eqn:E2; [discriminate|].
  apply skip_ws_cons in E2.
  destruct (N.eqb d (ch "}")); [intros Hres; injection Hres as _ <-; lia|].
  destruct (N.eqb d (ch ",")); [|discriminate].
  destruct (skip_ws r3) as [|q r4] eqn:E3; [discriminate|].
  apply skip_ws_cons in E3.
  destruct (N.eqb q DQUOTE); [|discriminate].
  intros Hres. apply IH in Hres. lia.
Qed.

Lemma array_items_length scan :
  consumes scan ->
  forall bound s acc v r,
    array_items scan bound s acc = Some (v, r) -> length r < length s.
Proof.
  intros Hscan. induction bound as [|b IH]; intros s acc v r; [discriminate|].
  cbn [array_items].
  destruct (scan s) as [[value r0]|] eqn:Ev; [|discriminate].
  apply Hscan in Ev.
  destruct (skip_ws r0) as [|d r1] eqn:E1; [discriminate|].
  apply skip_ws_cons in E1.
  destruct (N.eqb d (ch "]")); [intros Hres; injection Hres as _ <-; lia|].
  destruct (N.eqb d (ch ",")); [|discriminate].
  intros Hres. apply IH in Hres. pose proof (skip_ws_length r1). lia.
Qed.

Lemma JSONObject_length scan s v r :
  consumes scan -> JSONObject scan s = Some (v, r) -> length r < length s.
Proof.
  intros Hscan. unfold JSONObject.
  destruct (skip_ws s) as [|c r0] eqn:E; [discriminate|].
  apply skip_ws_cons in E.
  destruct (N.eqb c DQUOTE).
  - intros H. apply (object_members_length scan Hscan) in H. lia.
  - destruct (N.eqb c (ch "}")); [|discriminate].
    intros H; injection H as _ <-. lia.
Qed.

Lemma JSONArray_length scan s v r :
  consumes scan -> JSONArray scan s = Some (v, r) -> length r < length s.
Proof.
  intros Hscan. unfold JSONArray.
  destruct (skip_ws s) as [|c r0] eqn:E; [discriminate|].
  pose proof (skip_ws_cons _ _ _ E) as Hlt.
  destruct (N.eqb c (ch "]")); [intros H; injection H as _ <-; lia|].
  intros H. apply (array_items_length scan Hscan) in H. simpl in H. lia.
Qed.

Lemma scan_once_consumes fuel : consumes (scan_once fuel).
Proof.
  induction fuel as [|n IH]; intros s v r; [discriminate|].
  cbn [scan_once]. destruct s as [|c r0]; [discriminate|].
  destruct (N.eqb c DQUOTE).
  { destruct (scanstring r0 []) as [[t r']|] eqn:E; [|discriminate].
    apply scanstring_consumes in E.
    intros H; injection H as _ <-. simpl. lia. }
  destruct (N.eqb c (ch "{")).
  { intros H. apply (JSONObject_length _ _ _ _ IH) in H. simpl. lia. }
  destruct (N.eqb c (ch "[")).
  { intros H. apply (JSONArray_length _ _ _ _ IH) in H. simpl. lia. }
  assert (Hskip : forall k x, 0 < k ->
            Some (x, skipn k (c :: r0)) = Some (v, r) ->
            length r < length (c :: r0)).
  { intros k x Hk H. assert (Hr : r = skipn k (c :: r0)) by congruence.
    rewrite Hr, length_skipn. cbn [length]. lia. }
  repeat match goal with
         | |- (if startswith ?a ?p then _ else _) = Some _ -> _ =>
             destruct (startswith a p);
             [intros H; apply Hskip in H; [exact H|lia]|]
         end.
  destruct (match_number (c :: r0)) as [[v' r']|] eqn:E.
  { apply match_number_length in E. intros H; injection H as _ <-. exact E. }
  repeat match goal with
         | |- (if startswith ?a ?p then _ else _) = Some _ -> _ =>
             destruct (startswith a p);
             [intros H; apply Hskip in H; [exact H|lia]|]
         end.
  discriminate.
Qed.

(** The loops ask the scanner only about what is left of their text. *)
Lemma object_members_ext scan1 scan2 :
  consumes scan1 ->
  forall bound s acc,
    (forall x, length x <= length s -> scan1 x = scan2 x) ->
    object_members scan1 bound s acc = object_members scan2 bound s acc.
Proof.
  intros Hscan. induction bound as [|b IH]; intros s acc Hagree; [reflexivity|].
  cbn [object_members].
  destruct (scanstring s []) as [[key r0]|] eqn:Ek; [|reflexivity].
  apply scanstring_consumes in Ek.
  destruct (skip_ws r0) as [|c r1] eqn:E1; [reflexivity|].
  apply skip_ws_cons in E1.
  destruct (N.eqb c (ch ":")); [|reflexivity].
  pose proof (skip_ws_length r1) as Hws.
  rewrite <- (Hagree (skip_ws r1)) by lia.
  destruct (scan1 (skip_ws r1)) as [[value r2]|] eqn:Ev; [|reflexivity].
  apply Hscan in Ev.
  destruct (skip_ws r2) as [|d r3] eqn:E2; [reflexivity|].
  apply skip_ws_cons in E2.
  destruct (N.eqb d (ch "}")); [reflexivity|].
  destruct (N.eqb d (ch ",")); [|reflexivity].
  destruct (skip_ws r3) as [|q r4] eqn:E3; [reflexivity|].
  apply skip_ws_cons in E3.
  destruct (N.eqb q DQUOTE); [|reflexivity].
  apply IH. intros x Hx. apply Hagree. lia.
Qed.

Lemma array_items_ext scan1 scan2 :
  consumes scan1 ->
  forall bound s acc,
    (forall x, length x <= length s -> scan1 x = scan2 x) ->
    array_items scan1 bound s acc = array_items scan2 bound s acc.
Proof.
  intros Hscan. induction bound as [|b IH]; intros s acc Hagree; [reflexivity|].
  cbn [array_items].
  rewrite <- (Hagree s) by lia.
  destruct (scan1 s) as [[value r0]|] eqn:Ev; [|reflexivity].
  apply Hscan in Ev.
  destruct (skip_ws r0) as [|d r1] eqn:E1; [reflexivity|].
  apply skip_ws_cons in E1.
  destruct (N.eqb d (ch "]")); [reflexivity|].
  destruct (N.eqb d (ch ",")); [|reflexivity].
  apply IH. intros x Hx. apply Hagree.
  pose proof (skip_ws_length r1). lia.
Qed.

Lemma JSONObject_ext scan1 scan2 s :
  consumes scan1 ->
  (forall x, length x <= length s -> scan1 x = scan2 x) ->
  JSONObject scan1 s = JSONObject scan2 s.
Proof.
  intros Hscan Hagree. unfold JSONObject.
  destruct (skip_ws s) as [|c r] eqn:E; [reflexivity|].
  apply skip_ws_cons in E.
  destruct (N.eqb c DQUOTE); [|reflexivity].
  apply object_members_ext; [exact Hscan|].
  intros x Hx. apply Hagree. lia.
Qed.

Lemma JSONArray_ext scan1 scan2 s :
  consumes scan1 ->
  (forall x, length x <= length s -> scan1 x = scan2 x) ->
  JSONArray scan1 s = JSONArray scan2 s.
Proof.
  intros Hscan Hagree. unfold JSONArray.
  pose proof (skip_ws_length s) as Hws.
  destruct (skip_ws s) as [|c r] eqn:E; [reflexivity|].
  destruct (N.eqb c (ch "]")); [reflexivity|].
  apply array_items_ext; [exact Hscan|].
  intros x Hx. apply Hagree. lia.
Qed.

(** One more level of nesting than the text is long is never used. *)
Lemma scan_once_fuel_step n :
  forall s, length s < n -> scan_once (S n) s = scan_once n s.
Proof.
  induction n as [|n IH]; intros s Hlen; [lia|].
  destruct s as [|c r]; [reflexivity|]. simpl in Hlen.
  assert (Hagree : forall x, length x <= length r ->
                             scan_once (S n) x = scan_once n x)
    by (intros x Hx; apply IH; lia).
  pose proof (scan_once_consumes (S n)) as Hscan.
  remember (S n) as m eqn:Hm. cbn [scan_once].
  rewrite (JSONObject_ext (scan_once m) (scan_once n) r Hscan Hagree).
  rewrite (JSONArray_ext (scan_once m) (scan_once n) r Hscan Hagree).
  subst m. reflexivity.
Qed.

Lemma scan_once_fuel_enough m n s :
  length s < n -> n <= m -> scan_once m s = scan_once n s.
Proof.
  intros Hlen Hle. induction Hle as [|m Hle IH]; [reflexivity|].
  rewrite scan_once_fuel_step by lia. exact IH.
Qed.

(** [json_loads] gives [scan_once] enough depth: any larger depth decodes
    the same. *)
Lemma json_loads_depth_enough fuel s :
  length s < fuel ->
  scan_once fuel (skip_ws s) = scan_once (S (length s)) (skip_ws s).
Proof.
  intros Hlen. pose proof (skip_ws_length s).
  apply scan_once_fuel_enough; lia.
Qed.

(** The loops are given enough iterations: any larger bound loops the same. *)
Lemma object_members_bound_enough scan :
  consumes scan ->
  forall b b' s acc,
    length s <= b -> length s <= b' ->
    object_members scan b s acc = object_members scan b' s acc.
Proof.
  intros Hscan. induction b as [|b IH]; intros b' s acc Hb Hb'.
  - destruct s; [|simpl in Hb; lia]. destruct b'; reflexivity.
  - destruct b' as [|b'].
    { destruct s; [reflexivity|simpl in Hb'; lia]. }
    cbn [object_members].
    destruct (scanstring s []) as [[key r0]|] eqn:Ek; [|reflexivity].
    apply scanstring_consumes in Ek.
    destruct (skip_ws r0) as [|c r1] eqn:E1; [reflexivity|].
    apply skip_ws_cons in E1.
    destruct (N.eqb c (ch ":")); [|reflexivity].
    pose proof (skip_ws_length r1) as Hws.
    destruct (scan (skip_ws r1)) as [[value r2]|] eqn:Ev; [|reflexivity].
    apply Hscan in Ev.
    destruct (skip_ws r2) as [|d r3] eqn:E2; [reflexivity|].
    apply skip_ws_cons in E2.
    destruct (N.eqb d (ch "}")); [reflexivity|].
    destruct (N.eqb d (ch ",")); [|reflexivity].
    destruct (skip_ws r3) as [|q r4] eqn:E3; [reflexivity|].
    apply skip_ws_cons in E3.
    destruct (N.eqb q DQUOTE); [|reflexivity].
    apply IH; lia.
Qed.

Lemma array_items_bound_enough scan :
  consumes scan ->
  forall b b' s acc,
    length s <= b -> length s <= b' ->
    array_items scan b s acc = array_items scan b' s acc.
Proof.
  intros Hscan.
  assert (Hnil : forall acc b, array_items scan b [] acc = None).
  { intros acc [|b]; [reflexivity|]. cbn [array_items].
    destruct (scan []) as [[v r]|] eqn:E; [|reflexivity].
    apply Hscan in E. simpl in E. lia. }
  induction b as [|b IH]; intros b' s acc Hb Hb'.
  - destruct s; [|simpl in Hb; lia]. rewrite !Hnil. reflexivity.
  - destruct b' as [|b'].
    { destruct s; [|simpl in Hb'; lia]. rewrite !Hnil. reflexivity. }
    cbn [array_items].
    destruct (scan s) as [[value r0]|] eqn:Ev; [|reflexivity].
    apply Hscan in Ev.
    destruct (skip_ws r0) as [|d r1] eqn:E1; [reflexivity|].
    apply skip_ws_cons in E1.
    destruct (N.eqb d (ch "]")); [reflexivity|].
    destruct (N.eqb d (ch ",")); [|reflexivity].
    pose proof (skip_ws_length r1). apply IH; lia.
Qed.

(** * More about the filter-and-join step *)

Lemma filter_all_true {A : Type} (f : A -> bool) (l : list A) :
  Forall (fun x => f x = true) l -> filter f l = l.
Proof.
  induction 1 as [|x l Hx Hl IH]; simpl; [reflexivity|].
  rewrite Hx, IH. reflexivity.
Qed.

Lemma split_app_sep sep a b :
  split sep (a ++ sep :: b) = split sep a ++ split sep b.
Proof.
  induction a as [|c a IH]; simpl.
  - rewrite N.eqb_refl. reflexivity.
  - destruct (N.eqb c sep); [rewrite IH; reflexivity|].
    rewrite IH. pose proof (split_not_nil sep a) as Hne.
    destruct (split sep a); [contradiction|reflexivity].
Qed.

Lemma atom_lines_app a b :
  atom_lines (a ++ LF :: b) = atom_lines a ++ atom_lines b.
Proof. unfold atom_lines. rewrite split_app_sep. apply filter_app. Qed.

(** Applying the step to its own result changes nothing: the result is
    already at most 400 lines that all start with ATOM. *)
Theorem extract_idempotent content :
  extract_truncated_records (extract_truncated_records content)
  = extract_truncated_records content.
Proof.
  unfold extract_truncated_records at 1 3.
  assert (Hkept : atom_lines (extract_truncated_records content)
                  = firstn 400 (atom_lines content)).
  { rewrite atom_lines_text_lines, extract_lines.
    apply filter_all_true, Forall_firstn.
    apply (Forall_filter_true is_atom). }
  rewrite Hkept, firstn_firstn. reflexivity.
Qed.

(** Text after a line feed adds its own kept lines after those of the text
    before it; once the text before holds 400 kept lines, what follows is
    never looked at. *)
Theorem lines_after_the_400th_are_ignored content rest :
  400 <= length (atom_lines content) ->
  extract_truncated_records (content ++ LF :: rest)
  = extract_truncated_records content.
Proof.
  intros Hlen. unfold extract_truncated_records.
  rewrite atom_lines_app, firstn_app.
  replace (400 - length (atom_lines content)) with 0 by lia.
  rewrite app_nil_r. reflexivity.
Qed.

(** * More about runs of the script *)

(** What [get_reduced_pdb] does, by the three cases of its guard. *)
Lemma get_reduced_pdb_cases net fs :
  (exists content,
      fs pdb = Some content
      /\ get_reduced_pdb net fs
         = {| outcome := inr (extract_truncated_records (universal_newlines content));
              files_after := fs; events := [] |})
  \/ (exists r,
        fs pdb = None /\ http_get net download_url = Some r
        /\ get_reduced_pdb net fs
           = {| outcome :=
                  inr (extract_truncated_records (universal_newlines (text r)));
                files_after := write_file fs pdb (text r);
                events := [Get download_url; WriteText pdb (text r)] |})
  \/ (fs pdb = None /\ http_get net download_url = None
      /\ get_reduced_pdb net fs
         = {| outcome := inl RequestException; files_after := fs;
              events := [Get download_url] |}).
Proof.
  destruct (fs pdb) as [content|] eqn:H.
  - left. exists content. split; [reflexivity|].
    apply (get_reduced_pdb_present net fs H).
  - destruct (http_get net download_url) as [r|] eqn:G.
    + right; left. exists r. repeat split.
      apply (get_reduced_pdb_download net fs H G).
    + right; right. repeat split.
      apply (get_reduced_pdb_unreachable net fs H G).
Qed.

(** Once [get_reduced_pdb] has returned, calling it again on the files it
    left makes no request, whatever the network, changes no file and returns
    the same string: what was downloaded, good or bad, is what is used from
    then on. *)
Theorem get_reduced_pdb_again net net' fs input_pdb :
  outcome (get_reduced_pdb net fs) = inr input_pdb ->
  get_reduced_pdb net' (files_after (get_reduced_pdb net fs))
  = {| outcome := inr input_pdb;
       files_after := files_after (get_reduced_pdb net fs);
       events := [] |}.
Proof.
  destruct (get_reduced_pdb_cases net fs)
    as [(content & H & ->)|[(r & H & G & ->)|(H & G & ->)]]; cbn; intros Hout.
  - injection Hout as <-. apply (get_reduced_pdb_present net' fs H).
  - injection Hout as <-.
    apply (get_reduced_pdb_present net' (write_file fs pdb (text r))
             (write_file_same fs pdb (text r))).
  - discriminate.
Qed.

(** Every file of a run is as before, or is one of the two files of the
    script and holds a text. *)
Lemma main_files net fs p :
  files_after (main net fs) p = fs p
  \/ ((p = pdb \/ p = output_pdb) /\ exists d, files_after (main net fs) p = Some d).
Proof.
  assert (Hw : forall (fs0 : files) q d,
             (q = pdb \/ q = output_pdb) ->
             (fs0 p = fs p
              \/ ((p = pdb \/ p = output_pdb) /\ exists d', fs0 p = Some d')) ->
             write_file fs0 q d p = fs p
             \/ ((p = pdb \/ p = output_pdb)
                 /\ exists d', write_file fs0 q d p = Some d')).
  { intros fs0 q d Hq H0. unfold write_file.
    destruct (str_eqb_spec p q) as [->|Hne]; [|exact H0].
    right. split; [exact Hq|]. exists d. reflexivity. }
  assert (Hg : files_after (get_reduced_pdb net fs) p = fs p
               \/ ((p = pdb \/ p = output_pdb)
                   /\ exists d, files_after (get_reduced_pdb net fs) p = Some d)).
  { destruct (get_reduced_pdb_cases net fs)
      as [(content & H & ->)|[(r & H & G & ->)|(H & G & ->)]]; cbn; auto. }
  rewrite main_spec.
  destruct (outcome (get_reduced_pdb net fs)) as [e|input_pdb]; cbn; [exact Hg|].
  destruct (http_post net generate_url (payload input_pdb)) as [r|]; cbn;
    [|exact Hg].
  rewrite persist_output_spec.
  destruct (json_loads (text r)) as [[| | | | | |pairs]|]; cbn; try exact Hg.
  destruct (dict_get pairs (lit "output_pdb")) as [[| | | |s| |]|]; cbn;
    try exact Hg.
  destruct (encodable s); cbn; apply Hw; auto.
Qed.

(** A run changes no file other than [1R42.pdb] and [output.pdb], and removes
    no file: a file that was there is there afterwards. *)
Theorem main_frame net fs :
  (forall p, p <> pdb -> p <> output_pdb -> files_after (main net fs) p = fs p)
  /\ (forall p content,
        fs p = Some content -> exists d, files_after (main net fs) p = Some d).
Proof.
  split.
  - intros p H1 H2. destruct (main_files net fs p) as [H|[[H|H] _]];
      [exact H|contradiction|contradiction].
  - intros p content Hp. destruct (main_files net fs p) as [H|[_ H]];
      [exists content; rewrite H; exact Hp|exact H].
Qed.

(** The requests of a run, in order: the download exactly when the structure
    file is missing, then the post exactly when [get_reduced_pdb] returned.
    There is no other request and none is repeated. *)
Theorem requests_of_a_run net fs :
  filter is_request (events (main net fs))
  = match fs pdb with
    | Some _ => []
    | None => [Get download_url]
    end
    ++ match outcome (get_reduced_pdb net fs) with
       | inr input_pdb => [Post generate_url (payload input_pdb)]
       | inl _ => []
       end.
Proof.
  rewrite main_spec.
  assert (Hp : forall r fs', filter is_request (events (persist_output r fs')) = []).
  { intros r fs'. destruct (persist_output_events r fs') as [->|[s ->]];
      reflexivity. }
  destruct (get_reduced_pdb_cases net fs)
    as [(content & H & ->)|[(r & H & G & ->)|(H & G & ->)]];
    rewrite H; cbn [outcome events files_after];
    try reflexivity;
    match goal with
    | |- context [http_post ?n ?u ?b] => destruct (http_post n u b) as [r'|]
    end;
    cbn [outcome events files_after app filter is_request];
    rewrite ?Hp; reflexivity.
Qed.

(** A run that ends normally got an answer whose body is a JSON object with
    a string under [output_pdb]; [output.pdb] then holds that string, and
    writing it was the last thing the run did. *)
Theorem normal_end_has_written net fs :
  outcome (main net fs) = inr tt ->
  exists input_pdb r pairs s,
    outcome (get_reduced_pdb net fs) = inr input_pdb
    /\ http_post net generate_url (payload input_pdb) = Some r
    /\ json_loads (text r) = Some (JObj pairs)
    /\ dict_get pairs (lit "output_pdb") = Some (JStr s)
    /\ files_after (main net fs) output_pdb = Some s
    /\ exists before, events (main net fs) = before ++ [WriteText output_pdb s].
Proof.
  rewrite main_spec.
  destruct (outcome (get_reduced_pdb net fs)) as [e|input_pdb]; cbn;
    [discriminate|].
  destruct (http_post net generate_url (payload input_pdb)) as [r|] eqn:Hpost;
    cbn; [|discriminate].
  rewrite persist_output_spec.
  destruct (json_loads (text r)) as [[| | | | | |pairs]|] eqn:Hj; cbn;
    try discriminate.
  destruct (dict_get pairs (lit "output_pdb")) as [[| | | |s| |]|] eqn:Hk; cbn;
    try discriminate.
  destruct (encodable s); cbn; [|discriminate].
  intros _. exists input_pdb, r, pairs, s.
  split; [reflexivity|]. split; [first [exact Hpost|reflexivity]|].
  split; [first [exact Hj|reflexivity]|].
  split; [first [exact Hk|reflexivity]|]. split; [apply write_file_same|].
  exists (events (get_reduced_pdb net fs)
          ++ [Post generate_url (payload input_pdb); Print (preview_text r)]).
  rewrite <- app_assoc. reflexivity.
Qed.


Lemma get_reduced_pdb_same_texts net1 net2 fs :
  (forall url, option_map text (http_get net1 url)
               = option_map text (http_get net2 url)) ->
  get_reduced_pdb net1 fs = get_reduced_pdb net2 fs.
Proof.
  intros Hget. destruct (fs pdb) as [content|] eqn:H.
  - rewrite (get_reduced_pdb_present net1 fs H).
    rewrite (get_reduced_pdb_present net2 fs H). reflexivity.
  - specialize (Hget download_url).
    destruct (http_get net1 download_url) as [r1|] eqn:G1;
      destruct (http_get net2 download_url) as [r2|] eqn:G2;
      try discriminate.
    + injection Hget as Ht.
      rewrite (get_reduced_pdb_download net1 fs H G1).
      rewrite (get_reduced_pdb_download net2 fs H G2).
      rewrite Ht. reflexivity.
    + rewrite (get_reduced_pdb_unreachable net1 fs H G1).
      rewrite (get_reduced_pdb_unreachable net2 fs H G2). reflexivity.
Qed.

(** The script never looks at the status of an answer: two networks whose
    answers have the same texts, whatever their status codes, give a run the
    same end and the same files. *)
Theorem status_is_never_checked net1 net2 fs :
  (forall url, option_map text (http_get net1 url)
               = option_map text (http_get net2 url)) ->
  (forall url body, option_map text (http_post net1 url body)
                    = option_map text (http_post net2 url body)) ->
  outcome (main net1 fs) = outcome (main net2 fs)
  /\ files_after (main net1 fs) = files_after (main net2 fs).
Proof.
  intros Hget Hpost. rewrite !main_spec.
  rewrite (get_reduced_pdb_same_texts net1 net2 fs Hget).
  destruct (outcome (get_reduced_pdb net2 fs)) as [e|input_pdb];
    [split; reflexivity|].
  specialize (Hpost generate_url (payload input_pdb)).
  destruct (http_post net1 generate_url (payload input_pdb)) as [r1|];
    destruct (http_post net2 generate_url (payload input_pdb)) as [r2|];
    try discriminate; [|split; reflexivity].
  injection Hpost as Ht. cbn [outcome files_after].
  rewrite !persist_output_spec, Ht.
  destruct (json_loads (text r2)) as [[| | | | | |pairs]|];
    try (split; reflexivity).
  destruct (dict_get pairs (lit "output_pdb")) as [[| | | |s| |]|];
    try (split; reflexivity).
  destruct (encodable s); split; reflexivity.
Qed.

(** ** Carriage returns *)

Lemma universal_newlines_other c r :
  c <> CR -> universal_newlines (c :: r) = c :: universal_newlines r.
Proof.
  intros Hc.
  change (universal_newlines (c :: r)) with
    (if N.eqb c CR then
       LF :: match r with
             | [] => []
             | d :: r' => if N.eqb d LF then universal_newlines r'
                          else universal_newlines r
             end
     else c :: universal_newlines r).
  destruct (N.eqb_spec c CR); [contradiction|reflexivity].
Qed.

Lemma universal_newlines_crlf r :
  universal_newlines (CR :: LF :: r) = LF :: universal_newlines r.
Proof. reflexivity. Qed.

Lemma universal_newlines_no_cr_bound n s :
  length s <= n -> ~ In CR (universal_newlines s).
Proof.
  revert s; induction n as [|n IH]; intros s Hlen.
  - destruct s; [intros []|simpl in Hlen; lia].
  - destruct s as [|c r]; [intros []|]. simpl in Hlen.
    destruct (N.eqb_spec c CR) as [->|Hc].
    + destruct r as [|d r'].
      * intros [H|[]]. discriminate.
      * destruct (N.eqb_spec d LF) as [->|Hd].
        -- rewrite universal_newlines_crlf. intros [H|H]; [discriminate|].
           revert H. apply IH. simpl in Hlen. lia.
        -- change (universal_newlines (CR :: d :: r'))
             with (LF :: if N.eqb d LF then universal_newlines r'
                         else universal_newlines (d :: r')).
           destruct (N.eqb_spec d LF); [contradiction|].
           intros [H|H]; [discriminate|]. revert H. apply IH. lia.
    + rewrite universal_newlines_other by assumption.
      intros [H|H]; [congruence|]. revert H. apply IH. lia.
Qed.

Lemma universal_newlines_no_cr s : ~ In CR (universal_newlines s).
Proof. apply (universal_newlines_no_cr_bound (length s) s (le_n _)). Qed.

Lemma universal_newlines_id s : ~ In CR s -> universal_newlines s = s.
Proof.
  induction s as [|c r IH]; intros Hnin; [reflexivity|].
  rewrite universal_newlines_other, IH; [reflexivity| |];
    intros H; apply Hnin; [right|left]; auto.
Qed.

Lemma universal_newlines_app x rest :
  ~ In CR x -> universal_newlines (x ++ rest) = x ++ universal_newlines rest.
Proof.
  induction x as [|c x IH]; intros Hnin; [reflexivity|].
  cbn [app]. rewrite universal_newlines_other, IH; [reflexivity| |];
    intros H; apply Hnin; [right|left]; auto.
Qed.

Lemma universal_newlines_join ls :
  Forall (fun l => ~ In CR l) ls ->
  universal_newlines (join [CR; LF] ls) = join [LF] ls.
Proof.
  induction 1 as [|x xs Hx Hxs IH]; [reflexivity|].
  destruct xs as [|y ys].
  - apply universal_newlines_id, Hx.
  - change (join [CR; LF] (x :: y :: ys))
      with (x ++ CR :: LF :: join [CR; LF] (y :: ys)).
    change (join [LF] (x :: y :: ys)) with (x ++ LF :: join [LF] (y :: ys)).
    rewrite universal_newlines_app by assumption.
    rewrite universal_newlines_crlf, IH. reflexivity.
Qed.

Lemma subseq_In {A : Type} (a b : list A) x : subseq a b -> In x a -> In x b.
Proof.
  induction 1 as [|y a b Hab IH|y a b Hab IH]; simpl; intros Hin;
    [exact Hin|auto|destruct Hin; auto].
Qed.

Lemma in_split sep s l c : In l (split sep s) -> In c l -> In c s.
Proof.
  revert l; induction s as [|c0 r IH]; simpl; intros l Hl Hc.
  - destruct Hl as [<-|[]]. exact Hc.
  - destruct (N.eqb c0 sep).
    + destruct Hl as [<-|Hl]; [destruct Hc|]. right. apply (IH l Hl Hc).
    + destruct (split sep r) as [|h t].
      * destruct Hl as [<-|[]]. destruct Hc as [Hc|[]]. left. exact Hc.
      * destruct Hl as [<-|Hl].
        -- destruct Hc as [Hc|Hc]; [left; exact Hc|].
           right. apply (IH h (or_introl eq_refl) Hc).
        -- right. apply (IH l (or_intror Hl) Hc).
Qed.

Lemma in_join sep ls c :
  In c (join sep ls) -> In c sep \/ exists l, In l ls /\ In c l.
Proof.
  induction ls as [|x xs IH]; [intros []|].
  destruct xs as [|y ys].
  - intros H. right. exists x. split; [left; reflexivity|exact H].
  - change (join sep (x :: y :: ys)) with (x ++ sep ++ join sep (y :: ys)).
    intros H. apply in_app_or in H as [H|H].
    + right. exists x. split; [left; reflexivity|exact H].
    + apply in_app_or in H as [H|H]; [left; exact H|].
      destruct (IH H) as [Hs|(l & Hl & Hc)]; [left; exact Hs|].
      right. exists l. split; [right; exact Hl|exact Hc].
Qed.

(** The result holds a character only if the content does. *)
Lemma extract_chars content c :
  c <> LF -> In c (extract_truncated_records content) -> In c content.
Proof.
  intros Hc H. unfold extract_truncated_records in H.
  apply in_join in H as [[H|[]]|(l & Hl & Hin)]; [congruence|].
  apply (in_split LF content l c); [|exact Hin].
  apply (subseq_In (firstn 400 (atom_lines content)) (split LF content) l);
    [|exact Hl].
  eapply subseq_trans; [apply subseq_firstn|apply subseq_filter].
Qed.

(** What [get_reduced_pdb] returns never holds a carriage return, whatever the
    structure file or the download holds: the file is read in text mode. *)
Theorem get_reduced_pdb_no_carriage_return net fs input_pdb :
  outcome (get_reduced_pdb net fs) = inr input_pdb -> ~ In CR input_pdb.
Proof.
  destruct (get_reduced_pdb_cases net fs)
    as [(content & H & ->)|[(r & H & G & ->)|(H & G & ->)]]; cbn; intros Hout;
    try discriminate; injection Hout as <-; intros Hin;
    apply extract_chars in Hin; try discriminate;
    exact (universal_newlines_no_cr _ Hin).
Qed.

(** A structure file with lines ended by carriage return and line feed gives
    the same result as the file with the same lines ended by a line feed. *)
Theorem crlf_file_reads_the_same net fs1 fs2 ls :
  Forall (fun l => ~ In CR l) ls ->
  fs1 pdb = Some (join [CR; LF] ls) ->
  fs2 pdb = Some (join [LF] ls) ->
  outcome (get_reduced_pdb net fs1) = outcome (get_reduced_pdb net fs2).
Proof.
  intros Hls H1 H2.
  rewrite (get_reduced_pdb_present net fs1 H1).
  rewrite (get_reduced_pdb_present net fs2 H2). cbn [outcome].
  rewrite universal_newlines_join by assumption.
  rewrite universal_newlines_id; [reflexivity|].
  intros Hin. apply in_join in Hin as [[H|[]]|(l & Hl & Hc)]; [discriminate|].
  rewrite Forall_forall in Hls. exact (Hls l Hl Hc).
Qed.

(** * These properties at concrete runs *)

Lemma lines_after_the_400th_are_ignored_witness :
  extract_truncated_records (mock_structure ++ LF :: lit "ATOM   9999 late")
  = extract_truncated_records mock_structure.
Proof.
  apply (lines_after_the_400th_are_ignored mock_structure (lit "ATOM   9999 late")).
  vm_compute. lia.
Defined.

Lemma get_reduced_pdb_again_witness :
  get_reduced_pdb unreachable
    (files_after (get_reduced_pdb (answering (lit "ATOM 1") []) no_files))
  = {| outcome := inr (lit "ATOM 1");
       files_after :=
         files_after (get_reduced_pdb (answering (lit "ATOM 1") []) no_files);
       events := [] |}.
Proof.
  apply (get_reduced_pdb_again (answering (lit "ATOM 1") []) unreachable
           no_files (lit "ATOM 1")).
  reflexivity.
Defined.

Lemma normal_end_has_written_witness :
  exists input_pdb r pairs s,
    outcome (get_reduced_pdb (answering [] mock_body)
               (write_file no_files pdb (lit "ATOM 1"))) = inr input_pdb
    /\ http_post (answering [] mock_body) generate_url (payload input_pdb) = Some r
    /\ json_loads (text r) = Some (JObj pairs)
    /\ dict_get pairs (lit "output_pdb") = Some (JStr s)
    /\ files_after (main (answering [] mock_body)
                      (write_file no_files pdb (lit "ATOM 1"))) output_pdb
       = Some s
    /\ exists before,
        events (main (answering [] mock_body)
                  (write_file no_files pdb (lit "ATOM 1")))
        = before ++ [WriteText output_pdb s].
Proof.
  apply (normal_end_has_written (answering [] mock_body)
           (write_file no_files pdb (lit "ATOM 1"))).
  vm_compute. reflexivity.
Defined.

Lemma status_is_never_checked_witness :
  outcome (main (answering [] mock_body) (write_file no_files pdb (lit "ATOM 1")))
  = outcome (main (answering_status 500 [] mock_body)
               (write_file no_files pdb (lit "ATOM 1")))
  /\ files_after (main (answering [] mock_body)
                    (write_file no_files pdb (lit "ATOM 1")))
     = files_after (main (answering_status 500 [] mock_body)
                      (write_file no_files pdb (lit "ATOM 1"))).
Proof.
  apply (status_is_never_checked (answering [] mock_body)
           (answering_status 500 [] mock_body)
           (write_file no_files pdb (lit "ATOM 1"))).
  - intros url. reflexivity.
  - intros url body. reflexivity.
Defined.

Lemma get_reduced_pdb_no_carriage_return_witness :
  ~ In CR (lit "ATOM 1" ++ [LF] ++ lit "ATOM 2").
Proof.
  apply (get_reduced_pdb_no_carriage_return unreachable
           (write_file no_files pdb
              (lit "ATOM 1" ++ [CR; LF] ++ lit "ATOM 2" ++ [CR]))
           (lit "ATOM 1" ++ [LF] ++ lit "ATOM 2")).
  reflexivity.
Defined.

Lemma crlf_file_reads_the_same_witness :
  outcome (get_reduced_pdb unreachable
             (write_file no_files pdb
                (join [CR; LF] [lit "ATOM 1"; lit "HETATM"; lit "ATOM 2"])))
  = outcome (get_reduced_pdb unreachable
               (write_file no_files pdb
                  (join [LF] [lit "ATOM 1"; lit "HETATM"; lit "ATOM 2"]))).
Proof.
  apply (crlf_file_reads_the_same unreachable
           (write_file no_files pdb
              (join [CR; LF] [lit "ATOM 1"; lit "HETATM"; lit "ATOM 2"]))
           (write_file no_files pdb
              (join [LF] [lit "ATOM 1"; lit "HETATM"; lit "ATOM 2"]))
           [lit "ATOM 1"; lit "HETATM"; lit "ATOM 2"]).
  - repeat constructor; intros H; vm_compute in H;
      repeat (destruct H as [H|H]; [discriminate H|]); exact H.
  - reflexivity.
  - reflexivity.
Defined.


Lemma main_frame_witness :
  files_after (main unreachable (write_file no_files (lit "notes.txt") (lit "keep")))
    (lit "notes.txt")
  = Some (lit "keep").
Proof.
  rewrite (proj1 (main_frame unreachable
                    (write_file no_files (lit "notes.txt") (lit "keep")))
             (lit "notes.txt")).
  - reflexivity.
  - discriminate.
  - discriminate.
Defined.

(** ** A string that cannot be encoded *)


